(** * Autocomplete result transformer of [src/index.ts]

    A shallow embedding of the [/autocomplete] handler: the parsing of
    prediction terms into place suggestions, the substring filter, the
    [exactMatch] annotation, the priority sort and the removal of
    duplicates, followed by the properties of each step.

    Conventions of the embedding.
    - A JavaScript string is a Stdlib [string]; each character stands for
      one code unit in the range 0..255.
    - A value that may be [undefined] (the result of indexing an array) is
      a [jsval].
    - [Array.prototype.sort] is stable (ECMAScript 2019); it is embedded as
      a stable insertion sort driven by the numeric comparator of the
      source.
    - [Set<string>] is a [gset string]. *)

From Stdlib Require Import ZArith String Ascii List Permutation Sorted Lia.
From stdpp Require Import gmap strings list.
Import ListNotations.

Local Open Scope string_scope.
Local Open Scope list_scope.

(** ** JavaScript primitives used by the handler *)

(** The result of an array access [a[i]]: a string or [undefined]. *)
Inductive jsval : Type :=
| JUndefined
| JStr (s : string).

(** [a[i]] on an array of strings. *)
Definition index (a : list string) (i : nat) : jsval :=
  match nth_error a i with
  | Some s => JStr s
  | None => JUndefined
  end.

(** [a.slice(start)]: a negative [start] counts from the end, and the
    resulting position is clamped to [0 .. a.length]. *)
Definition slice {A : Type} (start : Z) (a : list A) : list A :=
  let len := Z.of_nat (List.length a) in
  let k := if (start <? 0)%Z then Z.max (len + start) 0 else Z.min start len in
  skipn (Z.to_nat k) a.

(** [v || d] where [d] is a string: [undefined] and the empty string are
    falsy. *)
Definition or_else (v : jsval) (d : string) : string :=
  match v with
  | JUndefined => d
  | JStr s => if String.eqb s "" then d else s
  end.

(** [a.join(sep)] on an array of strings. *)
Definition join (sep : string) (a : list string) : string :=
  String.concat sep a.

(** [s.includes(sub)]: [sub] occurs in [s] as a contiguous run of code
    units. *)
Fixpoint includes (s sub : string) : bool :=
  if String.prefix sub s then true
  else match s with
       | EmptyString => false
       | String _ s' => includes s' sub
       end.

(** [toLowerCase] on one code unit of the range 0..255: the letters A-Z
    and the upper-case letters of the Latin-1 supplement (U+00C0..U+00DE
    but for U+00D7) are moved down by 32. *)
Definition lower_unit (c : ascii) : ascii :=
  let n := nat_of_ascii c in
  if ((65 <=? n) && (n <=? 90)
      || (192 <=? n) && (n <=? 222) && negb (n =? 215))%nat
  then ascii_of_nat (n + 32) else c.

Fixpoint toLowerCase (s : string) : string :=
  match s with
  | EmptyString => EmptyString
  | String c s' => String (lower_unit c) (toLowerCase s')
  end.

(** White space and line terminators of ECMAScript in the range 0..255. *)
Definition is_white (c : ascii) : bool :=
  let n := nat_of_ascii c in
  ((n =? 9) || (n =? 10) || (n =? 11) || (n =? 12) || (n =? 13)
   || (n =? 32) || (n =? 160))%nat.

Fixpoint trimStart (s : string) : string :=
  match s with
  | EmptyString => EmptyString
  | String c s' => if is_white c then trimStart s' else s
  end.

(** Drops the trailing white space: a character is kept when it is not
    white or when something is kept after it. *)
Fixpoint trimEnd (s : string) : string :=
  match s with
  | EmptyString => EmptyString
  | String c s' =>
      match trimEnd s' with
      | EmptyString => if is_white c then EmptyString else String c EmptyString
      | r => String c r
      end
  end.

(** [s.trim()]. *)
Definition trim (s : string) : string := trimEnd (trimStart s).

(** A template literal prints [undefined] as the word itself. *)
Definition template (v : jsval) : string :=
  match v with
  | JUndefined => "undefined"
  | JStr s => s
  end.

(** ** Data model *)

(** The non-null values of [exactMatch]. *)
Inductive MatchKind : Type := City | State | Country.

(** [interface PlaceSuggestion]. The fields [city], [state] and [country]
    are built with [|| ''] and [address] with [join], so they hold
    strings; [name] is a bare array access. [exactMatch = None] is
    [null]. *)
Record PlaceSuggestion : Type := mkPlace {
  name : jsval;
  address : string;
  city : string;
  state : string;
  country : string;
  exactMatch : option MatchKind
}.

(** ** Step 3: parse *)

(** The body of the [map] callback at lines 121-130. *)
Definition placeSuggestion (terms : list string) : PlaceSuggestion :=
  {| name := index terms 0;
     city := or_else (index (slice (-3) terms) 0) "";
     state := or_else (index (slice (-2) terms) 0) "";
     country := or_else (index (slice (-1) terms) 0) "";
     address := join ", " (slice 1 terms);
     exactMatch := None |}.

Definition placeSuggestions (predictions : list (list string))
  : list PlaceSuggestion :=
  map placeSuggestion predictions.

(** ** Step 4: filter, annotate and sort *)

(** The [filter] callback at lines 136-143. *)
Definition matchesPartially (inputLower : string) (place : PlaceSuggestion)
  : bool :=
  includes (toLowerCase (city place)) inputLower
  || includes (toLowerCase (state place)) inputLower
  || includes (toLowerCase (country place)) inputLower.

(** [place.exactMatch = m]. *)
Definition setExactMatch (place : PlaceSuggestion) (m : MatchKind)
  : PlaceSuggestion :=
  {| name := name place;
     address := address place;
     city := city place;
     state := state place;
     country := country place;
     exactMatch := Some m |}.

(** The [map] callback at lines 144-154. *)
Definition assignExactMatch (inputLower : string) (place : PlaceSuggestion)
  : PlaceSuggestion :=
  if String.eqb (toLowerCase (country place)) inputLower then
    setExactMatch place Country
  else if String.eqb (toLowerCase (state place)) inputLower then
    setExactMatch place State
  else if String.eqb (toLowerCase (city place)) inputLower then
    setExactMatch place City
  else place.

(** [priorityOrder[m || 'null']]. *)
Definition priorityOrder (m : option MatchKind) : Z :=
  match m with
  | Some City => 3
  | Some State => 2
  | Some Country => 1
  | None => 0
  end.

(** The comparator at lines 155-159. *)
Definition comparePriority (a b : PlaceSuggestion) : Z :=
  priorityOrder (exactMatch b) - priorityOrder (exactMatch a).

(** [x] is put into a sorted list of elements that followed it in the
    input: it goes before the first [y] that the comparator does not order
    before it, so that equal elements keep their order. *)
Fixpoint sortInsert {A : Type} (cmp : A -> A -> Z) (x : A) (l : list A)
  : list A :=
  match l with
  | [] => [x]
  | y :: l' =>
      if (cmp x y <=? 0)%Z then x :: y :: l' else y :: sortInsert cmp x l'
  end.

(** [a.sort(cmp)]. *)
Fixpoint sort {A : Type} (cmp : A -> A -> Z) (a : list A) : list A :=
  match a with
  | [] => []
  | x :: a' => sortInsert cmp x (sort cmp a')
  end.

(** The three links of the chain at lines 135-159: [.filter(...)], then
    [.map(...)], then [.sort(...)], with [inputLower] of line 133. *)
Definition keptResults (input : string)
    (placeSuggestions : list PlaceSuggestion) : list PlaceSuggestion :=
  let inputLower := toLowerCase input in
  List.filter (matchesPartially inputLower) placeSuggestions.

Definition annotatedResults (input : string)
    (placeSuggestions : list PlaceSuggestion) : list PlaceSuggestion :=
  let inputLower := toLowerCase input in
  map (assignExactMatch inputLower) (keptResults input placeSuggestions).

Definition filteredResults (input : string)
    (placeSuggestions : list PlaceSuggestion) : list PlaceSuggestion :=
  sort comparePriority (annotatedResults input placeSuggestions).

(** ** Step 5: removal of duplicates *)

(** The key [`${place.name}|${place.address}`]. *)
Definition placeKey (place : PlaceSuggestion) : string :=
  template (name place) ++ "|" ++ address place.

(** The two variables the loop at lines 164-170 updates. *)
Record UniqueState : Type := mkUnique {
  uniqueSoFar : list PlaceSuggestion;
  seen : gset string
}.

(** One iteration of the loop. *)
Definition uniqueStep (st : UniqueState) (place : PlaceSuggestion)
  : UniqueState :=
  let key := placeKey place in
  if decide (key ∈ seen st) then st
  else {| uniqueSoFar := uniqueSoFar st ++ [place];
          seen := {[key]} ∪ seen st |}.

(** Lines 162-170. *)
Definition uniqueResults (filtered : list PlaceSuggestion)
  : list PlaceSuggestion :=
  uniqueSoFar
    (fold_left uniqueStep filtered {| uniqueSoFar := []; seen := ∅ |}).

(** ** The whole transform, lines 121-170 *)

Definition transform (input : string) (predictions : list (list string))
  : list PlaceSuggestion :=
  uniqueResults (filteredResults input (placeSuggestions predictions)).

(** ** The transform with run-time checks

    The same lines once more, with every property read as an untyped
    value: calling a method on [undefined] throws a [TypeError], which the
    pipeline propagates. *)

Module Checked.

Inductive exn : Type := TypeError.

Definition result (A : Type) : Type := exn + A.

Definition ret {A : Type} (a : A) : result A := inr a.

Definition throw {A : Type} (e : exn) : result A := inl e.

Definition bind {A B : Type} (r : result A) (k : A -> result B)
  : result B :=
  match r with
  | inl e => inl e
  | inr a => k a
  end.

Notation "x <- r ;; k" := (bind r (fun x => k))
  (at level 100, r at next level, right associativity).

(** [a.map(f)] and [a.filter(f)] with a callback that may throw. *)
Fixpoint mapM {A B : Type} (f : A -> result B) (a : list A)
  : result (list B) :=
  match a with
  | [] => ret []
  | x :: a' => y <- f x ;; ys <- mapM f a' ;; ret (y :: ys)
  end.

Fixpoint filterM {A : Type} (f : A -> result bool) (a : list A)
  : result (list A) :=
  match a with
  | [] => ret []
  | x :: a' =>
      b <- f x ;; ys <- filterM f a' ;; ret (if b then x :: ys else ys)
  end.

(** An object literal with the six properties of a suggestion. *)
Record obj : Type := mkObj {
  name : jsval;
  address : jsval;
  city : jsval;
  state : jsval;
  country : jsval;
  exactMatch : option MatchKind
}.

(** [v.toLowerCase()]. *)
Definition callToLowerCase (v : jsval) : result string :=
  match v with
  | JUndefined => throw TypeError
  | JStr s => ret (toLowerCase s)
  end.

(** [v || d] as a value. *)
Definition orValue (v d : jsval) : jsval :=
  match v with
  | JUndefined => d
  | JStr s => if String.eqb s "" then d else v
  end.

Definition placeSuggestion (terms : list string) : obj :=
  {| name := index terms 0;
     city := orValue (index (slice (-3) terms) 0) (JStr "");
     state := orValue (index (slice (-2) terms) 0) (JStr "");
     country := orValue (index (slice (-1) terms) 0) (JStr "");
     address := JStr (join ", " (slice 1 terms));
     exactMatch := None |}.

(** The [filter] callback; [||] evaluates its right operand only when
    the left one is false. *)
Definition matchesPartially (inputLower : string) (place : obj)
  : result bool :=
  c <- callToLowerCase (city place) ;;
  if includes c inputLower then ret true else
  s <- callToLowerCase (state place) ;;
  if includes s inputLower then ret true else
  k <- callToLowerCase (country place) ;;
  ret (includes k inputLower).

Definition setExactMatch (place : obj) (m : MatchKind) : obj :=
  {| name := name place;
     address := address place;
     city := city place;
     state := state place;
     country := country place;
     exactMatch := Some m |}.

Definition assignExactMatch (inputLower : string) (place : obj)
  : result obj :=
  k <- callToLowerCase (country place) ;;
  if String.eqb k inputLower then ret (setExactMatch place Country) else
  s <- callToLowerCase (state place) ;;
  if String.eqb s inputLower then ret (setExactMatch place State) else
  c <- callToLowerCase (city place) ;;
  if String.eqb c inputLower then ret (setExactMatch place City) else
  ret place.

Definition comparePriority (a b : obj) : Z :=
  priorityOrder (exactMatch b) - priorityOrder (exactMatch a).

Definition filteredResults (input : string) (placeSuggestions : list obj)
  : result (list obj) :=
  let inputLower := toLowerCase input in
  kept <- filterM (matchesPartially inputLower) placeSuggestions ;;
  annotated <- mapM (assignExactMatch inputLower) kept ;;
  ret (sort comparePriority annotated).

Definition placeKey (place : obj) : string :=
  template (name place) ++ "|" ++ template (address place).

Record UniqueState : Type := mkUnique {
  uniqueSoFar : list obj;
  seen : gset string
}.

Definition uniqueStep (st : UniqueState) (place : obj) : UniqueState :=
  let key := placeKey place in
  if decide (key ∈ seen st) then st
  else {| uniqueSoFar := uniqueSoFar st ++ [place];
          seen := {[key]} ∪ seen st |}.

Definition uniqueResults (filtered : list obj) : list obj :=
  uniqueSoFar
    (fold_left uniqueStep filtered {| uniqueSoFar := []; seen := ∅ |}).

Definition transform (input : string) (predictions : list (list string))
  : result (list obj) :=
  filtered <- filteredResults input (map placeSuggestion predictions) ;;
  ret (uniqueResults filtered).

End Checked.

(** A typed suggestion seen as an object. *)
Definition toObj (p : PlaceSuggestion) : Checked.obj :=
  {| Checked.name := name p;
     Checked.address := JStr (address p);
     Checked.city := JStr (city p);
     Checked.state := JStr (state p);
     Checked.country := JStr (country p);
     Checked.exactMatch := exactMatch p |}.

(** ** The handler of [/autocomplete], lines 85-178 *)

(** One term of a prediction and a prediction, as the remote service
    returns them. *)
Record Term : Type := mkTerm { offset : nat; value : string }.

Record Prediction : Type := mkPrediction { terms : list Term }.

(** The outcome of [await axios.get(...)]: the promise is rejected, or it
    resolves to a payload with a status and predictions. *)
Inductive AxiosResult : Type :=
| Rejected
| Resolved (status : string) (predictions : list Prediction).

Inductive Body : Type :=
| ErrorBody (error : string)
| ErrorDetails (error : string) (status : string)
    (predictions : list Prediction)
| Results (places : list Checked.obj).

Record Response : Type := mkResponse { statusCode : nat; body : Body }.

(** What the handler does besides answering: the remote call and the
    transform, each with its arguments. *)
Inductive Event : Type :=
| AxiosGet (input : string)
| Transform (input : string) (predictions : list (list string)).

(** [req.query.input] is [None] when the parameter is missing. The
    function [axios_get] gives the outcome of the remote call for an
    input. The result is the response and the events in order. *)
Definition autocomplete (query_input : option string)
    (axios_get : string -> AxiosResult) : Response * list Event :=
  match query_input with
  | None =>
      ({| statusCode := 400;
          body := ErrorBody "Input parameter is required" |}, [])
  | Some input =>
      if String.eqb input "" || String.eqb (trim input) "" then
        ({| statusCode := 400;
            body := ErrorBody "Input parameter is required" |}, [])
      else
        match axios_get input with
        | Rejected =>
            ({| statusCode := 500;
                body := ErrorBody "Internal server error" |},
             [AxiosGet input])
        | Resolved status data =>
            if negb (String.eqb status "OK") then
              ({| statusCode := 500;
                  body := ErrorDetails
                            "Failed to fetch autocomplete suggestions"
                            status data |},
               [AxiosGet input])
            else
              let predictions :=
                map (fun prediction => map value (terms prediction)) data in
              match Checked.transform input predictions with
              | inr uniqueResults =>
                  ({| statusCode := 200; body := Results uniqueResults |},
                   [AxiosGet input; Transform input predictions])
              | inl _ =>
                  ({| statusCode := 500;
                      body := ErrorBody "Internal server error" |},
                   [AxiosGet input; Transform input predictions])
              end
        end
  end.

(** ** The handlers of [/find-place] and [/place-details] *)

(** One candidate of the Find Place answer. *)
Record Candidate : Type := mkCandidate { place_id : string }.

(** The outcome of the first [await axios.get(...)]: the promise is
    rejected, or it resolves to a payload with a status and, when the
    property is there, candidates. *)
Inductive FindPlaceResult : Type :=
| FindRejected
| FindResolved (status : string) (candidates : option (list Candidate)).

(** The payload of the Place Details answer: its status and its [result],
    of a type [J] that the handlers do not look into. *)
Record DetailsData (J : Type) : Type := mkDetails {
  detailsStatus : string;
  result : J
}.

Arguments mkDetails {J} _ _.
Arguments detailsStatus {J} _.
Arguments result {J} _.

(** The outcome of the second [await axios.get(...)]. *)
Inductive DetailsResult (J : Type) : Type :=
| DetailsRejected
| DetailsResolved (data : DetailsData J).

Arguments DetailsRejected {J}.
Arguments DetailsResolved {J} _.

Inductive PlaceBody (J : Type) : Type :=
| PlaceError (error : string)
| PlaceData (data : DetailsData J)
| PlaceResult (result : J).

Arguments PlaceError {J} _.
Arguments PlaceData {J} _.
Arguments PlaceResult {J} _.

Record PlaceResponse (J : Type) : Type := mkPlaceResponse {
  placeStatus : nat;
  placeBody : PlaceBody J
}.

Arguments mkPlaceResponse {J} _ _.
Arguments placeStatus {J} _.
Arguments placeBody {J} _.

(** The two remote calls with the parameters that vary: the text of the
    Find Place call, and the place and the fields of the Place Details
    call. *)
Inductive PlaceEvent : Type :=
| FindPlaceCall (input : string)
| DetailsCall (place_id : string) (fields : string).

(** The handler of [/find-place], lines 19-82. [queryParam] is
    [req.query.query]. *)
Definition findPlace {J : Type} (queryParam : jsval)
    (find_place : string -> FindPlaceResult)
    (place_details : string -> string -> DetailsResult J)
  : PlaceResponse J * list PlaceEvent :=
  let query := or_else queryParam "Museum of Contemporary Art Australia" in
  let notFound :=
    ({| placeStatus := 404; placeBody := PlaceError "Place not found" |},
     [FindPlaceCall query]) in
  match find_place query with
  | FindRejected =>
      ({| placeStatus := 500;
          placeBody := PlaceError "Failed to fetch place information" |},
       [FindPlaceCall query])
  | FindResolved status candidates =>
      if negb (String.eqb status "OK") then notFound
      else
        match candidates with
        | None => notFound
        | Some [] => notFound
        | Some (first :: _) =>
            let placeId := place_id first in
            let fields :=
              join "," ["name"; "formatted_address"; "geometry";
                        "address_components"] in
            match place_details placeId fields with
            | DetailsRejected =>
                ({| placeStatus := 500;
                    placeBody :=
                      PlaceError "Failed to fetch place information" |},
                 [FindPlaceCall query; DetailsCall placeId fields])
            | DetailsResolved data =>
                if negb (String.eqb (detailsStatus data) "OK") then
                  ({| placeStatus := 500;
                      placeBody :=
                        PlaceError "Failed to fetch place details" |},
                   [FindPlaceCall query; DetailsCall placeId fields])
                else
                  ({| placeStatus := 200; placeBody := PlaceData data |},
                   [FindPlaceCall query; DetailsCall placeId fields])
            end
        end
  end.

(** The handler of [/place-details], lines 181-244. *)
Definition placeDetails {J : Type} (queryParam : jsval)
    (find_place : string -> FindPlaceResult)
    (place_details : string -> string -> DetailsResult J)
  : PlaceResponse J * list PlaceEvent :=
  let query := or_else queryParam "Museum of Contemporary Art Australia" in
  let notFound :=
    ({| placeStatus := 404; placeBody := PlaceError "Place not found" |},
     [FindPlaceCall query]) in
  match find_place query with
  | FindRejected =>
      ({| placeStatus := 500;
          placeBody := PlaceError "Internal server error" |},
       [FindPlaceCall query])
  | FindResolved status candidates =>
      if negb (String.eqb status "OK") then notFound
      else
        match candidates with
        | None => notFound
        | Some [] => notFound
        | Some (first :: _) =>
            let placeId := place_id first in
            let fields :=
              join "," ["name"; "formatted_address"; "geometry";
                        "address_components"; "international_phone_number";
                        "opening_hours"; "website"; "reviews"; "types"] in
            match place_details placeId fields with
            | DetailsRejected =>
                ({| placeStatus := 500;
                    placeBody := PlaceError "Internal server error" |},
                 [FindPlaceCall query; DetailsCall placeId fields])
            | DetailsResolved data =>
                if negb (String.eqb (detailsStatus data) "OK") then
                  ({| placeStatus := 500;
                      placeBody :=
                        PlaceError "Failed to fetch place details" |},
                   [FindPlaceCall query; DetailsCall placeId fields])
                else
                  ({| placeStatus := 200;
                      placeBody := PlaceResult (result data) |},
                   [FindPlaceCall query; DetailsCall placeId fields])
            end
        end
  end.

(** ** Notions used in the statements *)

(** [sub] occurs in [s]: some text before it and some text after it make
    up [s]. *)
Definition substringOf (sub s : string) : Prop :=
  exists pre post : string, s = (pre ++ sub ++ post)%string.

(** The lowercased input occurs in the lowercased [city], [state] or
    [country]. *)
Definition partialMatch (input : string) (place : PlaceSuggestion) : Prop :=
  substringOf (toLowerCase input) (toLowerCase (city place))
  \/ substringOf (toLowerCase input) (toLowerCase (state place))
  \/ substringOf (toLowerCase input) (toLowerCase (country place)).

(** The priority weight of a suggestion. *)
Definition weight (place : PlaceSuggestion) : Z :=
  priorityOrder (exactMatch place).

(** The rank that the order of the output is stated with, written out: an
    exact match on the city counts 3, on the state 2, on the country 1,
    and no exact match 0. *)
Definition rankOf (place : PlaceSuggestion) : Z :=
  match exactMatch place with
  | Some City => 3
  | Some State => 2
  | Some Country => 1
  | None => 0
  end.

(** Two suggestions have the same ([name], [address]) pair. *)
Definition samePair (p q : PlaceSuggestion) : Prop :=
  name p = name q /\ address p = address q.

(** The ([name], [address]) pair of a suggestion, and the key of a pair. *)
Definition pairOf (place : PlaceSuggestion) : jsval * string :=
  (name place, address place).

Definition keyOfPair (pair : jsval * string) : string :=
  (template (fst pair) ++ "|" ++ snd pair)%string.

(** The separator of the key occurs in [s]. *)
Fixpoint hasBar (s : string) : bool :=
  match s with
  | EmptyString => false
  | String c s' => Ascii.eqb c "|" || hasBar s'
  end.

(** The name is a string without the separator. *)
Definition plainName (place : PlaceSuggestion) : Prop :=
  match name place with
  | JStr n => hasBar n = false
  | JUndefined => False
  end.

(** The loop of [uniqueResults] seen from a set of keys already met: the
    suggestions of [places] that the loop appends. *)
Fixpoint uniqueFrom (met : gset string) (places : list PlaceSuggestion)
  : list PlaceSuggestion :=
  match places with
  | [] => []
  | place :: rest =>
      if decide (placeKey place ∈ met) then uniqueFrom met rest
      else place :: uniqueFrom ({[placeKey place]} ∪ met) rest
  end.

(** The state of the loop of [uniqueResults] seen as a state of the loop
    on objects. *)
Definition toUniqueState (st : UniqueState) : Checked.UniqueState :=
  {| Checked.uniqueSoFar := map toObj (uniqueSoFar st);
     Checked.seen := seen st |}.

(** The request has no [input], or one that is blank once trimmed. *)
Definition blankInput (query_input : option string) : Prop :=
  match query_input with
  | None => True
  | Some input => trim input = ""
  end.

(** Every code unit of [s] is white space. *)
Fixpoint onlyWhite (s : string) : bool :=
  match s with
  | EmptyString => true
  | String c s' => is_white c && onlyWhite s'
  end.

(** The suggestions of [places] with the value [m] of [exactMatch], in
    their order. *)
Definition withMatch (m : option MatchKind) (places : list PlaceSuggestion)
  : list PlaceSuggestion :=
  List.filter (fun p => (weight p =? priorityOrder m)%Z) places.

(** The term sequences of the predictions, lines 117-119. *)
Definition termValues (data : list Prediction) : list (list string) :=
  map (fun prediction => map value (terms prediction)) data.

(** The Find Place answer names a place: its status is [OK] and it has a
    first candidate. *)
Definition firstCandidate (r : FindPlaceResult) : option Candidate :=
  match r with
  | FindResolved status (Some (first :: _)) =>
      if String.eqb status "OK" then Some first else None
  | _ => None
  end.

(** The remote call of [/autocomplete] failed: the promise was rejected
    or the status of the answer is not [OK]. *)
Definition upstreamFailed (r : AxiosResult) : Prop :=
  match r with
  | Rejected => True
  | Resolved status _ => status <> "OK"
  end.

(** The text that [/find-place] and [/place-details] look up. *)
Definition lookupText (queryParam : jsval) : string :=
  or_else queryParam "Museum of Contemporary Art Australia".

(** The [fields] parameter of each of the two handlers. *)
Definition findPlaceFields : string :=
  "name,formatted_address,geometry,address_components".

Definition placeDetailsFields : string :=
  (findPlaceFields
   ++ ",international_phone_number,opening_hours,website,reviews,types")%string.

(** The Find Place call was answered and names no place. *)
Definition noPlace (r : FindPlaceResult) : Prop :=
  match r with
  | FindRejected => False
  | FindResolved _ _ => firstCandidate r = None
  end.

(** The Place Details call was answered with the status [OK]. *)
Definition detailsOk {J : Type} (r : DetailsResult J)
  : option (DetailsData J) :=
  match r with
  | DetailsRejected => None
  | DetailsResolved data =>
      if String.eqb (detailsStatus data) "OK" then Some data else None
  end.

(** * Properties *)

(** ** Parse *)

Section Parse.

Lemma slice_from_end {A : Type} (k : nat) (a : list A) :
  slice (- Z.of_nat (S k)) a = skipn (List.length a - S k) a.
Proof.
  unfold slice.
  destruct (Z.ltb_spec (- Z.of_nat (S k)) 0) as [_ | Hge]; [| lia].
  f_equal. lia.
Qed.

Lemma index_skipn (n : nat) (a : list string) :
  index (skipn n a) 0 = index a n.
Proof.
  unfold index. revert a.
  induction n as [| n IH]; intros [| x a]; simpl; auto.
  apply IH.
Qed.

Lemma or_else_index (a : list string) (n : nat) :
  or_else (index a n) "" = nth n a "".
Proof.
  unfold or_else, index. revert a.
  induction n as [| n IH]; intros [| x a]; simpl; auto.
  destruct (String.eqb_spec x ""); congruence.
Qed.

(** The field read [k+1] places from the end: [slice] clamps the start
    at 0, so a short sequence gives its first term. *)
Lemma field_from_end (k : nat) (a : list string) :
  or_else (index (slice (- Z.of_nat (S k)) a) 0) ""
  = nth (List.length a - S k) a "".
Proof.
  rewrite slice_from_end, index_skipn. apply or_else_index.
Qed.

Lemma city_nth (a : list string) :
  city (placeSuggestion a) = nth (List.length a - 3) a "".
Proof. exact (field_from_end 2 a). Qed.

Lemma state_nth (a : list string) :
  state (placeSuggestion a) = nth (List.length a - 2) a "".
Proof. exact (field_from_end 1 a). Qed.

Lemma country_nth (a : list string) :
  country (placeSuggestion a) = nth (List.length a - 1) a "".
Proof. exact (field_from_end 0 a). Qed.

End Parse.

(** C1, as the code has it: [city] is the third-from-last term of a
    sequence of at least 3 terms, the first term of a sequence of 1 or 2
    terms, and the empty string for the empty sequence. *)
Theorem city_positional (a : list string) :
  (3 <= List.length a ->
   city (placeSuggestion a) = nth (List.length a - 3) a "")
  /\ (1 <= List.length a < 3 -> city (placeSuggestion a) = nth 0 a "")
  /\ (List.length a = 0 -> city (placeSuggestion a) = "").
Proof.
  rewrite city_nth. split; [| split].
  - reflexivity.
  - intros H. replace (List.length a - 3) with 0 by lia. reflexivity.
  - intros H. destruct a; [reflexivity | discriminate].
Qed.

Lemma city_positional_witness :
  city (placeSuggestion ["Museum"; "Sydney"; "NSW"; "Australia"]) = "Sydney"
  /\ city (placeSuggestion ["NSW"; "Australia"]) = "NSW"
  /\ city (placeSuggestion []) = "".
Proof.
  split; [| split].
  - apply (proj1 (city_positional ["Museum"; "Sydney"; "NSW"; "Australia"])).
    simpl. lia.
  - apply (proj1 (proj2 (city_positional ["NSW"; "Australia"]))).
    simpl. lia.
  - apply (proj2 (proj2 (city_positional []))). reflexivity.
Defined.

(** C1 as stated fails: a sequence of 2 terms has fewer than 3 terms and
    its [city] is the first term, not the empty string. *)
Lemma city_two_terms_not_empty :
  List.length ["NSW"; "Australia"] < 3
  /\ city (placeSuggestion ["NSW"; "Australia"]) = "NSW"
  /\ city (placeSuggestion ["NSW"; "Australia"]) <> "".
Proof. repeat split; [simpl; lia | discriminate]. Qed.

(** C2, as the code has it: [state] is the second-from-last term of a
    sequence of at least 2 terms, the only term of a sequence of 1 term,
    and the empty string for the empty sequence. *)
Theorem state_positional (a : list string) :
  (2 <= List.length a ->
   state (placeSuggestion a) = nth (List.length a - 2) a "")
  /\ (List.length a = 1 -> state (placeSuggestion a) = nth 0 a "")
  /\ (List.length a = 0 -> state (placeSuggestion a) = "").
Proof.
  rewrite state_nth. split; [| split].
  - reflexivity.
  - intros H. rewrite H. reflexivity.
  - intros H. destruct a; [reflexivity | discriminate].
Qed.

Lemma state_positional_witness :
  state (placeSuggestion ["Museum"; "Sydney"; "NSW"; "Australia"]) = "NSW"
  /\ state (placeSuggestion ["Australia"]) = "Australia"
  /\ state (placeSuggestion []) = "".
Proof.
  split; [| split].
  - apply (proj1 (state_positional ["Museum"; "Sydney"; "NSW"; "Australia"])).
    simpl. lia.
  - apply (proj1 (proj2 (state_positional ["Australia"]))). reflexivity.
  - apply (proj2 (proj2 (state_positional []))). reflexivity.
Defined.

(** C2 as stated fails: a sequence of 1 term has fewer than 2 terms and
    its [state] is that term, not the empty string. *)
Lemma state_one_term_not_empty :
  List.length ["Australia"] < 2
  /\ state (placeSuggestion ["Australia"]) = "Australia"
  /\ state (placeSuggestion ["Australia"]) <> "".
Proof. repeat split; [simpl; lia | discriminate]. Qed.

(** C3 at the failing input: for the empty term sequence the four fields
    [address], [city], [state] and [country] are the empty string, and
    [name], read without [|| ''], is [undefined] and not the empty
    string. *)
Theorem empty_terms_name_undefined :
  placeSuggestion []
  = {| name := JUndefined; address := ""; city := ""; state := "";
       country := ""; exactMatch := None |}
  /\ name (placeSuggestion []) <> JStr "".
Proof. split; [reflexivity | discriminate]. Qed.

(** ** Filter *)

Section Filter.

Lemma append_cons (c : ascii) (a b : string) :
  (String c a ++ b)%string = String c (a ++ b)%string.
Proof. reflexivity. Qed.

Lemma append_empty_l (b : string) : ("" ++ b)%string = b.
Proof. reflexivity. Qed.

Lemma prefix_append (a s : string) :
  String.prefix a s = true <-> exists post, s = (a ++ post)%string.
Proof.
  revert s. induction a as [| c a IH]; intros s.
  - split; [intros _; exists s; reflexivity | destruct s; reflexivity].
  - setoid_rewrite append_cons. destruct s as [| d s]; cbn.
    + split; [discriminate | intros [post H]; discriminate].
    + destruct (Ascii.ascii_dec c d) as [-> | Hne].
      * rewrite IH. split; intros [post H]; exists post; congruence.
      * split; [discriminate | intros [post H]; congruence].
Qed.

Lemma includes_substringOf (s sub : string) :
  includes s sub = true <-> substringOf sub s.
Proof.
  unfold substringOf. induction s as [| c s IH]; cbn [includes].
  - destruct (String.prefix sub "") eqn:Hp.
    + apply prefix_append in Hp as [post Hp]. split; [| reflexivity].
      intros _. exists "", post. exact Hp.
    + split; [discriminate |]. intros (pre & post & H).
      destruct pre; [| discriminate]. rewrite append_empty_l in H.
      assert (String.prefix sub "" = true) by (apply prefix_append; eauto).
      congruence.
  - destruct (String.prefix sub (String c s)) eqn:Hp.
    + apply prefix_append in Hp as [post Hp]. split; [| reflexivity].
      intros _. exists "", post. exact Hp.
    + rewrite IH. split.
      * intros (pre & post & H). exists (String c pre), post.
        rewrite append_cons. congruence.
      * intros (pre & post & H). destruct pre as [| d pre].
        -- rewrite append_empty_l in H.
           assert (String.prefix sub (String c s) = true)
             by (apply prefix_append; eauto).
           congruence.
        -- rewrite append_cons in H. exists pre, post. congruence.
Qed.

Lemma matchesPartially_partialMatch (input : string) (p : PlaceSuggestion) :
  matchesPartially (toLowerCase input) p = true <-> partialMatch input p.
Proof.
  unfold matchesPartially, partialMatch.
  rewrite !orb_true_iff, !includes_substringOf. tauto.
Qed.

Lemma assignExactMatch_fields (il : string) (p : PlaceSuggestion) :
  name (assignExactMatch il p) = name p
  /\ address (assignExactMatch il p) = address p
  /\ city (assignExactMatch il p) = city p
  /\ state (assignExactMatch il p) = state p
  /\ country (assignExactMatch il p) = country p.
Proof.
  unfold assignExactMatch.
  repeat match goal with |- context [String.eqb ?a ?b] =>
    destruct (String.eqb a b) end; simpl; auto.
Qed.

Lemma assignExactMatch_partialMatch (input il : string)
    (p : PlaceSuggestion) :
  partialMatch input (assignExactMatch il p) <-> partialMatch input p.
Proof.
  unfold partialMatch.
  destruct (assignExactMatch_fields il p) as (_ & _ & -> & -> & ->).
  reflexivity.
Qed.

End Filter.

(** ** Sort *)

Section Sort.

Context {A : Type}.
Variable w : A -> Z.
Variable cmp : A -> A -> Z.
Hypothesis cmp_weight : forall a b, cmp a b = (w b - w a)%Z.

Lemma sortInsert_perm (x : A) (l : list A) :
  Permutation (x :: l) (sortInsert cmp x l).
Proof using Type.
  induction l as [| y l IH]; simpl; [reflexivity |].
  destruct (cmp x y <=? 0)%Z; [reflexivity |].
  rewrite perm_swap. apply perm_skip, IH.
Qed.

Lemma sort_perm (l : list A) : Permutation l (sort cmp l).
Proof using Type.
  induction l as [| x l IH]; simpl; [reflexivity |].
  rewrite <- sortInsert_perm. apply perm_skip, IH.
Qed.

Lemma sortInsert_sorted (x : A) (l : list A) :
  StronglySorted (fun a b => (w a >= w b)%Z) l ->
  StronglySorted (fun a b => (w a >= w b)%Z) (sortInsert cmp x l).
Proof using cmp_weight.
  induction 1 as [| y l Hs IH Hy]; simpl.
  - repeat constructor.
  - rewrite cmp_weight. destruct (Z.leb_spec (w y - w x) 0) as [Hle | Hgt].
    + constructor; [constructor; assumption |].
      constructor; [lia |].
      eapply List.Forall_impl; [| exact Hy]. simpl. intros a Ha. lia.
    + constructor; [exact IH |].
      eapply Permutation_Forall; [apply sortInsert_perm |].
      constructor; [lia | exact Hy].
Qed.

Lemma sort_sorted (l : list A) :
  StronglySorted (fun a b => (w a >= w b)%Z) (sort cmp l).
Proof using cmp_weight.
  induction l as [| x l IH]; simpl; [constructor |].
  apply sortInsert_sorted, IH.
Qed.

Lemma sortInsert_class (k : Z) (x : A) (l : list A) :
  List.filter (fun a => (w a =? k)%Z) (sortInsert cmp x l)
  = List.filter (fun a => (w a =? k)%Z) (x :: l).
Proof using cmp_weight.
  induction l as [| y l IH]; [reflexivity |].
  cbn [sortInsert]. rewrite cmp_weight.
  destruct (Z.leb_spec (w y - w x) 0) as [Hle | Hgt]; [reflexivity |].
  cbn [List.filter] in *. rewrite IH.
  destruct (Z.eqb_spec (w x) k), (Z.eqb_spec (w y) k);
    try reflexivity; lia.
Qed.

Lemma sort_class (k : Z) (l : list A) :
  List.filter (fun a => (w a =? k)%Z) (sort cmp l)
  = List.filter (fun a => (w a =? k)%Z) l.
Proof using cmp_weight.
  induction l as [| x l IH]; [reflexivity |].
  cbn [sort]. rewrite sortInsert_class. cbn [List.filter].
  rewrite IH. reflexivity.
Qed.

End Sort.

Lemma comparePriority_weight (a b : PlaceSuggestion) :
  comparePriority a b = (weight b - weight a)%Z.
Proof. reflexivity. Qed.

Lemma comparePriority_rankOf (a b : PlaceSuggestion) :
  comparePriority a b = (rankOf b - rankOf a)%Z.
Proof.
  unfold comparePriority, rankOf.
  destruct (exactMatch a) as [[] |], (exactMatch b) as [[] |]; reflexivity.
Qed.

(** ** Removal of duplicates *)

Section Unique.

Lemma uniqueStep_fold (l : list PlaceSuggestion) (st : UniqueState) :
  uniqueSoFar (fold_left uniqueStep l st)
  = uniqueSoFar st ++ uniqueFrom (seen st) l.
Proof.
  revert st. induction l as [| p l IH]; intros st; simpl.
  - symmetry. apply app_nil_r.
  - rewrite IH. unfold uniqueStep.
    destruct (decide (placeKey p ∈ seen st)); simpl; [reflexivity |].
    rewrite <- app_assoc. reflexivity.
Qed.

Lemma uniqueResults_uniqueFrom (l : list PlaceSuggestion) :
  uniqueResults l = uniqueFrom ∅ l.
Proof. unfold uniqueResults. rewrite uniqueStep_fold. reflexivity. Qed.

Lemma uniqueFrom_In (met : gset string) (l : list PlaceSuggestion)
    (q : PlaceSuggestion) :
  In q (uniqueFrom met l) -> In q l /\ placeKey q ∉ met.
Proof.
  revert met. induction l as [| p l IH]; intros met; simpl; [tauto |].
  destruct (decide (placeKey p ∈ met)) as [Hin | Hout]; simpl.
  - intros H. apply IH in H. tauto.
  - intros [<- | H]; [tauto |].
    apply IH in H as [H1 H2]. split; [tauto |].
    intros Hm. apply H2, elem_of_union. tauto.
Qed.

Lemma uniqueFrom_NoDup (met : gset string) (l : list PlaceSuggestion) :
  List.NoDup (map placeKey (uniqueFrom met l)).
Proof.
  revert met. induction l as [| p l IH]; intros met; simpl.
  - constructor.
  - destruct (decide (placeKey p ∈ met)) as [Hin | Hout]; simpl; [apply IH |].
    constructor; [| apply IH].
    intros H. apply in_map_iff in H as (q & Hk & Hq).
    apply uniqueFrom_In in Hq as [_ Hq].
    apply Hq, elem_of_union. left. apply elem_of_singleton. exact Hk.
Qed.

(** The keys met grow by the keys of the suggestions scanned. *)
Lemma uniqueFrom_app (met : gset string) (l1 l2 : list PlaceSuggestion) :
  uniqueFrom met (l1 ++ l2)
  = uniqueFrom met l1
    ++ uniqueFrom (met ∪ list_to_set (map placeKey l1)) l2.
Proof.
  revert met. induction l1 as [| q l1 IH]; intros met; simpl.
  - rewrite union_empty_r_L. reflexivity.
  - destruct (decide (placeKey q ∈ met)) as [Hq | Hq]; rewrite IH; simpl.
    + replace (met ∪ ({[placeKey q]} ∪ list_to_set (map placeKey l1)))
        with (met ∪ (list_to_set (map placeKey l1) : gset string))
        by (apply set_eq; intros k; rewrite !elem_of_union, elem_of_singleton;
            intuition congruence).
      reflexivity.
    + replace (met ∪ ({[placeKey q]} ∪ list_to_set (map placeKey l1)))
        with ({[placeKey q]} ∪ met
              ∪ (list_to_set (map placeKey l1) : gset string))
        by (apply set_eq; intros k; rewrite !elem_of_union; tauto).
      reflexivity.
Qed.

(** The scan from the left: a suggestion whose key was met before is
    dropped, one whose key is new is kept. *)
Lemma uniqueResults_snoc (l : list PlaceSuggestion) (p : PlaceSuggestion) :
  (In (placeKey p) (map placeKey l) ->
   uniqueResults (l ++ [p]) = uniqueResults l)
  /\ (~ In (placeKey p) (map placeKey l) ->
      uniqueResults (l ++ [p]) = uniqueResults l ++ [p]).
Proof.
  rewrite !uniqueResults_uniqueFrom, uniqueFrom_app. simpl.
  assert (Hmet : placeKey p
                 ∈ (∅ ∪ list_to_set (map placeKey l) : gset string)
                 <-> In (placeKey p) (map placeKey l)).
  { rewrite elem_of_union, elem_of_list_to_set, list_elem_of_In.
    split; [intros [H | H]; [| exact H] | tauto].
    exfalso. exact (not_elem_of_empty _ H). }
  destruct (decide (placeKey p ∈ (∅ ∪ list_to_set (map placeKey l)
                                  : gset string))) as [H | H].
  - split; [intros _; apply app_nil_r | tauto].
  - split; [tauto | reflexivity].
Qed.

Lemma placeKey_pairOf (p : PlaceSuggestion) :
  placeKey p = keyOfPair (pairOf p).
Proof. reflexivity. Qed.

(** Away from names that hold the separator, equal keys mean equal
    pairs. *)
Lemma key_without_bar (n1 n2 a1 a2 : string) :
  hasBar n1 = false -> hasBar n2 = false ->
  keyOfPair (JStr n1, a1) = keyOfPair (JStr n2, a2) ->
  n1 = n2 /\ a1 = a2.
Proof.
  unfold keyOfPair. cbn [fst snd template].
  revert n2. induction n1 as [| c n1 IH]; intros [| d n2];
    cbn [hasBar]; rewrite ?append_cons, ?append_empty_l.
  - intros _ _ H. injection H as H. auto.
  - intros _ H2 H. injection H as Hc _. subst d.
    rewrite Ascii.eqb_refl in H2. discriminate.
  - intros H1 _ H. injection H as Hc _. subst c.
    rewrite Ascii.eqb_refl in H1. discriminate.
  - intros H1 H2 H. injection H as Hc H.
    apply orb_false_iff in H1 as [_ H1], H2 as [_ H2].
    destruct (IH n2 H1 H2 H) as [-> ->]. subst. auto.
Qed.

Lemma placeKey_plain (p q : PlaceSuggestion) :
  plainName p -> plainName q -> placeKey p = placeKey q ->
  pairOf p = pairOf q.
Proof.
  unfold plainName, pairOf. rewrite !placeKey_pairOf. unfold pairOf.
  destruct (name p) as [| n1]; [tauto |].
  destruct (name q) as [| n2]; [tauto |].
  intros H1 H2 H. destruct (key_without_bar _ _ _ _ H1 H2 H) as [-> ->].
  reflexivity.
Qed.

(** With plain names the scan is on pairs: the first suggestion of each
    pair is kept and the later ones are dropped. *)
Lemma uniqueResults_snoc_plain (l : list PlaceSuggestion)
    (p : PlaceSuggestion) :
  Forall plainName (l ++ [p]) ->
  (In (pairOf p) (map pairOf l) ->
   uniqueResults (l ++ [p]) = uniqueResults l)
  /\ (~ In (pairOf p) (map pairOf l) ->
      uniqueResults (l ++ [p]) = uniqueResults l ++ [p]).
Proof.
  intros Hall.
  assert (Hiff : In (placeKey p) (map placeKey l)
                 <-> In (pairOf p) (map pairOf l)).
  { rewrite List.Forall_forall in Hall. rewrite !in_map_iff. split.
    - intros (q & Hk & Hq). exists q. split; [| exact Hq].
      apply placeKey_plain; auto; apply Hall, in_or_app; simpl; auto.
    - intros (q & Hk & Hq). exists q. split; [| exact Hq].
      rewrite !placeKey_pairOf. congruence. }
  destruct (uniqueResults_snoc l p) as [H1 H2].
  split; intros H; [apply H1 | apply H2]; tauto.
Qed.

Lemma uniqueResults_pairs (l : list PlaceSuggestion) :
  List.NoDup (map pairOf (uniqueResults l)).
Proof.
  apply (List.NoDup_map_inv keyOfPair). rewrite map_map.
  rewrite uniqueResults_uniqueFrom.
  erewrite map_ext; [apply (uniqueFrom_NoDup ∅ l) |].
  intros p. symmetry. apply placeKey_pairOf.
Qed.

Lemma uniqueResults_In (l : list PlaceSuggestion) (q : PlaceSuggestion) :
  In q (uniqueResults l) -> In q l.
Proof.
  rewrite uniqueResults_uniqueFrom. intros H.
  apply uniqueFrom_In in H. tauto.
Qed.

End Unique.

(** ** The claims on filter, annotation, sort and duplicates *)

Lemma filteredResults_In (input : string) (ps : list PlaceSuggestion)
    (q : PlaceSuggestion) :
  In q (filteredResults input ps) ->
  exists p, In p (keptResults input ps)
            /\ q = assignExactMatch (toLowerCase input) p.
Proof.
  unfold filteredResults, annotatedResults. intros H.
  apply (Permutation_in q (Permutation_sym (sort_perm comparePriority _))) in H.
  apply in_map_iff in H as (p & Hq & Hp). eauto.
Qed.

(** C4: the filter step keeps a suggestion exactly when the lowercased
    input occurs in its lowercased [city], [state] or [country]; every
    suggestion that the chain or the whole transform produces passes one of
    the three checks. *)
Theorem kept_iff_partialMatch (input : string) (ps : list PlaceSuggestion) :
  (forall p, In p (keptResults input ps) <-> In p ps /\ partialMatch input p)
  /\ (forall q, In q (filteredResults input ps) -> partialMatch input q)
  /\ (forall q, In q (uniqueResults (filteredResults input ps)) ->
                partialMatch input q).
Proof.
  assert (Hf : forall q, In q (filteredResults input ps) ->
                         partialMatch input q).
  { intros q H. apply filteredResults_In in H as (p & Hp & ->).
    apply assignExactMatch_partialMatch.
    apply filter_In in Hp as [_ Hp].
    apply matchesPartially_partialMatch, Hp. }
  split; [| split].
  - intros p. unfold keptResults. rewrite filter_In.
    rewrite matchesPartially_partialMatch. reflexivity.
  - exact Hf.
  - intros q H. apply Hf, uniqueResults_In, H.
Qed.

Lemma kept_iff_partialMatch_witness :
  partialMatch "NSW" (placeSuggestion ["Sydney"; "NSW"; "Australia"]).
Proof.
  apply (proj1 (kept_iff_partialMatch "NSW"
                  (placeSuggestions [["Sydney"; "NSW"; "Australia"];
                                     ["Paris"; "France"]]))
           (placeSuggestion ["Sydney"; "NSW"; "Australia"])).
  simpl. left. reflexivity.
Defined.

Lemma placeSuggestions_unset (predictions : list (list string))
    (p : PlaceSuggestion) :
  In p (placeSuggestions predictions) -> exactMatch p = None.
Proof.
  unfold placeSuggestions. intros H.
  apply in_map_iff in H as (a & <- & _). reflexivity.
Qed.

(** C5: [exactMatch] is set from the first of [country], [state], [city]
    whose lowercased value equals the lowercased input, so [country] wins
    over [city]; with no equal field it keeps its value, which is
    [null] for every suggestion that reaches this step. *)
Theorem exactMatch_country_state_city (input : string) (p : PlaceSuggestion) :
  (toLowerCase (country p) = toLowerCase input ->
   exactMatch (assignExactMatch (toLowerCase input) p) = Some Country)
  /\ (toLowerCase (country p) <> toLowerCase input ->
      toLowerCase (state p) = toLowerCase input ->
      exactMatch (assignExactMatch (toLowerCase input) p) = Some State)
  /\ (toLowerCase (country p) <> toLowerCase input ->
      toLowerCase (state p) <> toLowerCase input ->
      toLowerCase (city p) = toLowerCase input ->
      exactMatch (assignExactMatch (toLowerCase input) p) = Some City)
  /\ (toLowerCase (country p) <> toLowerCase input ->
      toLowerCase (state p) <> toLowerCase input ->
      toLowerCase (city p) <> toLowerCase input ->
      assignExactMatch (toLowerCase input) p = p
      /\ forall predictions,
           In p (keptResults input (placeSuggestions predictions)) ->
           exactMatch (assignExactMatch (toLowerCase input) p) = None).
Proof.
  unfold assignExactMatch.
  destruct (String.eqb_spec (toLowerCase (country p)) (toLowerCase input));
    destruct (String.eqb_spec (toLowerCase (state p)) (toLowerCase input));
    destruct (String.eqb_spec (toLowerCase (city p)) (toLowerCase input));
    repeat split; intros; try reflexivity; try contradiction.
  eapply placeSuggestions_unset, proj1, filter_In. eassumption.
Qed.

Lemma exactMatch_country_state_city_witness :
  exactMatch
    (assignExactMatch (toLowerCase "Georgia")
       (mkPlace (JStr "Georgia") "" "georgia" "GA" "GEORGIA" None))
  = Some Country.
Proof.
  apply (proj1 (exactMatch_country_state_city "Georgia"
                  (mkPlace (JStr "Georgia") "" "georgia" "GA" "GEORGIA" None))).
  reflexivity.
Defined.

(** C6: the sort step gives a permutation of its input in descending
    order of the rank city 3, state 2, country 1, unset 0, and keeps the
    input order inside each rank: of two suggestions in a row the one of
    lower rank is moved behind the other, and two of equal or descending
    rank stay as they are. Suggestions annotated city, country and unset,
    in that order, stay in that order; suggestions annotated unset,
    country, state and city, in that order, come out reversed. *)
Theorem sort_stable_descending (l : list PlaceSuggestion) :
  Permutation l (sort comparePriority l)
  /\ StronglySorted (fun a b => (rankOf a >= rankOf b)%Z)
       (sort comparePriority l)
  /\ (forall k : Z,
        List.filter (fun p => (rankOf p =? k)%Z) (sort comparePriority l)
        = List.filter (fun p => (rankOf p =? k)%Z) l)
  /\ (forall a b : PlaceSuggestion,
        ((rankOf a < rankOf b)%Z -> sort comparePriority [a; b] = [b; a])
        /\ ((rankOf a >= rankOf b)%Z ->
            sort comparePriority [a; b] = [a; b]))
  /\ (forall a b c : PlaceSuggestion,
        exactMatch a = Some City -> exactMatch b = Some Country ->
        exactMatch c = None ->
        sort comparePriority [a; b; c] = [a; b; c])
  /\ (forall a b c d : PlaceSuggestion,
        exactMatch a = None -> exactMatch b = Some Country ->
        exactMatch c = Some State -> exactMatch d = Some City ->
        sort comparePriority [a; b; c; d] = [d; c; b; a]).
Proof.
  split; [| split; [| split; [| split; [| split]]]].
  - apply sort_perm.
  - apply (sort_sorted rankOf comparePriority comparePriority_rankOf).
  - intros k.
    apply (sort_class rankOf comparePriority comparePriority_rankOf).
  - intros a b. cbn [sort sortInsert]. rewrite comparePriority_rankOf.
    split; intros H.
    + destruct (Z.leb_spec (rankOf b - rankOf a) 0); [lia | reflexivity].
    + destruct (Z.leb_spec (rankOf b - rankOf a) 0); [reflexivity | lia].
  - intros [] [] [] Ha Hb Hc. simpl in Ha, Hb, Hc. subst. reflexivity.
  - intros [] [] [] [] Ha Hb Hc Hd. simpl in Ha, Hb, Hc, Hd. subst.
    reflexivity.
Qed.

Lemma sort_stable_descending_witness :
  sort comparePriority
    [mkPlace (JStr "Perth") "WA, Australia" "Perth" "WA" "Australia"
       (Some City);
     mkPlace (JStr "Perth") "" "Perth" "Perth" "Perth" (Some Country);
     mkPlace (JStr "Perth Rd") "Perth North, WA" "Perth Rd" "Perth North"
       "WA" None]
  = [mkPlace (JStr "Perth") "WA, Australia" "Perth" "WA" "Australia"
       (Some City);
     mkPlace (JStr "Perth") "" "Perth" "Perth" "Perth" (Some Country);
     mkPlace (JStr "Perth Rd") "Perth North, WA" "Perth Rd" "Perth North"
       "WA" None]
  /\ sort comparePriority
       [mkPlace (JStr "Perth Rd") "Perth North, WA" "Perth Rd" "Perth North"
          "WA" None;
        mkPlace (JStr "Perth") "" "Perth" "Perth" "Perth" (Some Country);
        mkPlace (JStr "Subiaco") "Perth, Australia" "Subiaco" "Perth"
          "Australia" (Some State);
        mkPlace (JStr "Perth") "WA, Australia" "Perth" "WA" "Australia"
          (Some City)]
     = [mkPlace (JStr "Perth") "WA, Australia" "Perth" "WA" "Australia"
          (Some City);
        mkPlace (JStr "Subiaco") "Perth, Australia" "Subiaco" "Perth"
          "Australia" (Some State);
        mkPlace (JStr "Perth") "" "Perth" "Perth" "Perth" (Some Country);
        mkPlace (JStr "Perth Rd") "Perth North, WA" "Perth Rd" "Perth North"
          "WA" None]
  /\ sort comparePriority
       [mkPlace (JStr "Perth") "" "Perth" "Perth" "Perth" (Some Country);
        mkPlace (JStr "Subiaco") "Perth, Australia" "Subiaco" "Perth"
          "Australia" (Some State)]
     = [mkPlace (JStr "Subiaco") "Perth, Australia" "Subiaco" "Perth"
          "Australia" (Some State);
        mkPlace (JStr "Perth") "" "Perth" "Perth" "Perth" (Some Country)].
Proof.
  split; [| split].
  - apply (proj1 (proj2 (proj2 (proj2 (proj2 (sort_stable_descending []))))));
      reflexivity.
  - apply (proj2 (proj2 (proj2 (proj2 (proj2 (sort_stable_descending []))))));
      reflexivity.
  - apply (proj1 (proj1 (proj2 (proj2 (proj2 (sort_stable_descending []))))
                    (mkPlace (JStr "Perth") "" "Perth" "Perth" "Perth"
                       (Some Country))
                    (mkPlace (JStr "Subiaco") "Perth, Australia" "Subiaco"
                       "Perth" "Australia" (Some State)))).
    reflexivity.
Defined.

(** C7 at the failing input: the two predictions [a|b, c] and [a, b|c]
    give suggestions with different ([name], [address]) pairs and the same
    key [a|b|c]; both pass the filter for the input [c], and the second is
    dropped as a duplicate of the first. *)
Theorem unique_drops_distinct_pair :
  filteredResults "c" (placeSuggestions [["a|b"; "c"]; ["a"; "b|c"]])
  = [mkPlace (JStr "a|b") "c" "a|b" "a|b" "c" (Some Country);
     mkPlace (JStr "a") "b|c" "a" "a" "b|c" None]
  /\ ~ samePair (mkPlace (JStr "a|b") "c" "a|b" "a|b" "c" (Some Country))
               (mkPlace (JStr "a") "b|c" "a" "a" "b|c" None)
  /\ placeKey (mkPlace (JStr "a|b") "c" "a|b" "a|b" "c" (Some Country))
     = placeKey (mkPlace (JStr "a") "b|c" "a" "a" "b|c" None)
  /\ transform "c" [["a|b"; "c"]; ["a"; "b|c"]]
     = [mkPlace (JStr "a|b") "c" "a|b" "a|b" "c" (Some Country)].
Proof.
  split; [| split; [| split]].
  - reflexivity.
  - intros [H _]. discriminate H.
  - reflexivity.
  - vm_compute. reflexivity.
Qed.

(** C10: no two elements of the output of the transform have the same
    ([name], [address]) pair. *)
Theorem transform_pairs_distinct (input : string)
    (predictions : list (list string)) :
  List.NoDup (map pairOf (transform input predictions)).
Proof. unfold transform. apply uniqueResults_pairs. Qed.

(** ** No exception in the transform *)

Section Refinement.

Lemma orValue_or_else (v : jsval) :
  Checked.orValue v (JStr "") = JStr (or_else v "").
Proof.
  destruct v as [| t]; simpl; [reflexivity |].
  destruct (String.eqb t ""); reflexivity.
Qed.

Lemma placeSuggestion_toObj (a : list string) :
  Checked.placeSuggestion a = toObj (placeSuggestion a).
Proof.
  unfold Checked.placeSuggestion, toObj, placeSuggestion; simpl.
  rewrite !orValue_or_else. reflexivity.
Qed.

Lemma matchesPartially_toObj (il : string) (p : PlaceSuggestion) :
  Checked.matchesPartially il (toObj p) = Checked.ret (matchesPartially il p).
Proof.
  unfold Checked.matchesPartially, matchesPartially; simpl.
  destruct (includes (toLowerCase (city p)) il); [reflexivity |].
  destruct (includes (toLowerCase (state p)) il); reflexivity.
Qed.

Lemma assignExactMatch_toObj (il : string) (p : PlaceSuggestion) :
  Checked.assignExactMatch il (toObj p)
  = Checked.ret (toObj (assignExactMatch il p)).
Proof.
  unfold Checked.assignExactMatch, assignExactMatch; simpl.
  destruct (String.eqb (toLowerCase (country p)) il); [reflexivity |].
  destruct (String.eqb (toLowerCase (state p)) il); [reflexivity |].
  destruct (String.eqb (toLowerCase (city p)) il); reflexivity.
Qed.

Lemma filterM_pure {A B : Type} (g : A -> B) (f : B -> Checked.result bool)
    (f' : A -> bool) (l : list A) :
  (forall a, f (g a) = Checked.ret (f' a)) ->
  Checked.filterM f (map g l) = Checked.ret (map g (List.filter f' l)).
Proof.
  intros Hf. induction l as [| x l IH]; simpl; [reflexivity |].
  rewrite Hf, IH. simpl. destruct (f' x); reflexivity.
Qed.

Lemma mapM_pure {A B : Type} (g : A -> B) (f : B -> Checked.result B)
    (f' : A -> A) (l : list A) :
  (forall a, f (g a) = Checked.ret (g (f' a))) ->
  Checked.mapM f (map g l) = Checked.ret (map g (map f' l)).
Proof.
  intros Hf. induction l as [| x l IH]; simpl; [reflexivity |].
  rewrite Hf, IH. reflexivity.
Qed.

Lemma sortInsert_map {A B : Type} (g : A -> B) (cmpB : B -> B -> Z)
    (cmpA : A -> A -> Z) (x : A) (l : list A) :
  (forall a b, cmpB (g a) (g b) = cmpA a b) ->
  sortInsert cmpB (g x) (map g l) = map g (sortInsert cmpA x l).
Proof.
  intros Hc. induction l as [| y l IH]; simpl; [reflexivity |].
  rewrite Hc. destruct (cmpA x y <=? 0)%Z; simpl; [reflexivity |].
  rewrite IH. reflexivity.
Qed.

Lemma sort_map {A B : Type} (g : A -> B) (cmpB : B -> B -> Z)
    (cmpA : A -> A -> Z) (l : list A) :
  (forall a b, cmpB (g a) (g b) = cmpA a b) ->
  sort cmpB (map g l) = map g (sort cmpA l).
Proof.
  intros Hc. induction l as [| x l IH]; simpl; [reflexivity |].
  rewrite IH. apply sortInsert_map, Hc.
Qed.

Lemma filteredResults_toObj (input : string) (ps : list PlaceSuggestion) :
  Checked.filteredResults input (map toObj ps)
  = Checked.ret (map toObj (filteredResults input ps)).
Proof.
  unfold Checked.filteredResults.
  rewrite (filterM_pure toObj _ (matchesPartially (toLowerCase input)))
    by apply matchesPartially_toObj.
  simpl.
  rewrite (mapM_pure toObj _ (assignExactMatch (toLowerCase input)))
    by apply assignExactMatch_toObj.
  simpl. unfold Checked.ret. f_equal.
  apply sort_map. reflexivity.
Qed.

Lemma uniqueStep_toObj (st : UniqueState) (p : PlaceSuggestion) :
  Checked.uniqueStep (toUniqueState st) (toObj p)
  = toUniqueState (uniqueStep st p).
Proof.
  unfold Checked.uniqueStep, uniqueStep.
  change (Checked.placeKey (toObj p)) with (placeKey p).
  change (Checked.seen (toUniqueState st)) with (seen st).
  destruct (decide (placeKey p ∈ seen st)); [reflexivity |].
  unfold toUniqueState; simpl. rewrite map_app. reflexivity.
Qed.

Lemma uniqueStep_fold_toObj (l : list PlaceSuggestion)
    (st : UniqueState) :
  fold_left Checked.uniqueStep (map toObj l) (toUniqueState st)
  = toUniqueState (fold_left uniqueStep l st).
Proof.
  revert st. induction l as [| p l IH]; intros st; simpl; [reflexivity |].
  rewrite uniqueStep_toObj. apply IH.
Qed.

Lemma uniqueResults_toObj (l : list PlaceSuggestion) :
  Checked.uniqueResults (map toObj l) = map toObj (uniqueResults l).
Proof.
  unfold Checked.uniqueResults, uniqueResults.
  change {| Checked.uniqueSoFar := []; Checked.seen := ∅ |}
    with (toUniqueState {| uniqueSoFar := []; seen := ∅ |}).
  rewrite uniqueStep_fold_toObj. reflexivity.
Qed.

End Refinement.

(** C8: for every input string and every sequence of term sequences the
    transform with run-time checks throws nothing: it returns the list
    that the typed transform computes. *)
Theorem transform_never_throws (input : string)
    (predictions : list (list string)) :
  Checked.transform input predictions
  = inr (map toObj (transform input predictions)).
Proof.
  unfold Checked.transform, transform.
  replace (map Checked.placeSuggestion predictions)
    with (map toObj (placeSuggestions predictions)).
  - rewrite filteredResults_toObj. simpl.
    rewrite uniqueResults_toObj. reflexivity.
  - unfold placeSuggestions. rewrite map_map. apply map_ext.
    intros a. symmetry. apply placeSuggestion_toObj.
Qed.

(** Term sequences of 0, 1, 2 and 3 terms in one run. *)
Example transform_short_sequences :
  Checked.transform "nsw" [[]; ["NSW"]; ["NSW"; "Australia"];
                           ["Sydney"; "NSW"; "Australia"]]
  = inr (map toObj
           [mkPlace (JStr "NSW") "Australia" "NSW" "NSW" "Australia"
              (Some State);
            mkPlace (JStr "Sydney") "NSW, Australia" "Sydney" "NSW"
              "Australia" (Some State);
            mkPlace (JStr "NSW") "" "NSW" "NSW" "NSW" (Some Country)]).
Proof. vm_compute. reflexivity. Qed.

(** ** The handler *)

(** C9: a request with a missing input, or with an input that is blank
    once trimmed, is answered with status 400 and causes no remote call
    and no transform; whenever the transform runs, its input is the
    parameter of the request, is not empty and is not blank. *)
Theorem blank_input_client_error (query_input : option string)
    (axios_get : string -> AxiosResult) :
  (blankInput query_input ->
   autocomplete query_input axios_get
   = ({| statusCode := 400; body := ErrorBody "Input parameter is required" |},
      []))
  /\ (forall input predictions,
        In (Transform input predictions)
           (snd (autocomplete query_input axios_get)) ->
        query_input = Some input /\ input <> "" /\ trim input <> "").
Proof.
  split.
  - destruct query_input as [input |]; simpl; [| reflexivity].
    intros ->. rewrite orb_true_r. reflexivity.
  - intros input predictions. unfold autocomplete.
    destruct query_input as [given |]; [| intros []].
    destruct (String.eqb_spec given "") as [-> | Hne]; [intros [] |].
    destruct (String.eqb_spec (trim given) "") as [Hb | Hnb]; [intros [] |].
    cbn [orb].
    destruct (axios_get given) as [| status data].
    + intros [H | []]. discriminate H.
    + destruct (negb (String.eqb status "OK")).
      * intros [H | []]. discriminate H.
      * destruct (Checked.transform given _);
          (intros [H | [H | []]]; [discriminate H |]);
          injection H as <- _; auto.
Qed.

Lemma blank_input_client_error_witness :
  autocomplete (Some "   ") (fun _ => Resolved "OK" [])
  = ({| statusCode := 400; body := ErrorBody "Input parameter is required" |},
     [])
  /\ (Some "nsw" = Some "nsw" /\ "nsw" <> "" /\ trim "nsw" <> "").
Proof.
  split.
  - apply (proj1 (blank_input_client_error (Some "   ")
                    (fun _ => Resolved "OK" []))).
    reflexivity.
  - apply (proj2 (blank_input_client_error (Some "nsw")
                    (fun _ => Resolved "OK"
                       [mkPrediction [mkTerm 0 "NSW"; mkTerm 5 "Australia"]]))
             "nsw" [["NSW"; "Australia"]]).
    simpl. right. left. reflexivity.
Defined.


(** * Further properties of the transform *)

Section ParseMore.

Lemma nth_pred_length_last (a : list string) (d : string) :
  nth (List.length a - 1) a d = List.last a d.
Proof.
  induction a as [| x a IH]; [reflexivity |].
  destruct a as [| y a]; [reflexivity |].
  cbn [List.length List.last] in *. rewrite <- IH.
  replace (S (S (List.length a)) - 1) with (S (S (List.length a) - 1))
    by lia.
  reflexivity.
Qed.

Lemma append_empty_r (s : string) : (s ++ "")%string = s.
Proof.
  induction s as [| c s IH]; [reflexivity |].
  rewrite append_cons, IH. reflexivity.
Qed.

Lemma toLowerCase_empty (s : string) : toLowerCase s = "" -> s = "".
Proof. destruct s; [reflexivity | discriminate]. Qed.

Lemma includes_in_empty (sub : string) : includes "" sub = true -> sub = "".
Proof.
  intros H. apply includes_substringOf in H as (pre & post & H).
  destruct pre; [| discriminate]. rewrite append_empty_l in H.
  destruct sub; [reflexivity | discriminate].
Qed.

Lemma includes_itself (s : string) : includes s s = true.
Proof.
  apply includes_substringOf. exists "", "".
  rewrite append_empty_l, append_empty_r. reflexivity.
Qed.

Lemma slice_one {A : Type} (x : A) (l : list A) : slice 1 (x :: l) = l.
Proof.
  unfold slice. change (1 <? 0)%Z with false. cbv iota.
  replace (Z.min 1 (Z.of_nat (List.length (x :: l)))) with 1%Z
    by (cbn [List.length]; lia).
  reflexivity.
Qed.

End ParseMore.

(** X1: [country] is the last term of the sequence, and the empty string
    when there is no term. *)
Theorem country_last_term (a : list string) :
  country (placeSuggestion a) = List.last a "".
Proof. rewrite country_nth. apply nth_pred_length_last. Qed.

(** X2: for a sequence of two terms or more, [name] is the first term and
    [name], the separator and [address] put together give back the terms
    joined by the separator. *)
Theorem name_address_rejoin (n r : string) (rest : list string) :
  name (placeSuggestion (n :: r :: rest)) = JStr n
  /\ (n ++ ", " ++ address (placeSuggestion (n :: r :: rest)))%string
     = join ", " (n :: r :: rest).
Proof.
  split; [reflexivity |].
  unfold placeSuggestion. cbn [address]. rewrite slice_one. reflexivity.
Qed.

Lemma transform_In (input : string) (predictions : list (list string))
    (q : PlaceSuggestion) :
  In q (transform input predictions) ->
  exists a, In a predictions
            /\ matchesPartially (toLowerCase input) (placeSuggestion a) = true
            /\ q = assignExactMatch (toLowerCase input) (placeSuggestion a).
Proof.
  unfold transform. intros H.
  apply uniqueResults_In, filteredResults_In in H as (p & Hp & ->).
  apply filter_In in Hp as [Hp Hm].
  apply in_map_iff in Hp as (a & <- & Ha). eauto.
Qed.

Lemma uniqueFrom_length (met : gset string) (l : list PlaceSuggestion) :
  List.length (uniqueFrom met l) <= List.length l.
Proof.
  revert met. induction l as [| p l IH]; intros met; simpl; [lia |].
  destruct (decide (placeKey p ∈ met)); simpl.
  - specialize (IH met). lia.
  - specialize (IH ({[placeKey p]} ∪ met)). lia.
Qed.

(** X3: every suggestion of the output is the annotated parse of one of
    the predictions, one that passes the filter; the output is no longer
    than the list of predictions. *)
Theorem transform_from_predictions (input : string)
    (predictions : list (list string)) :
  (forall q, In q (transform input predictions) ->
     exists a, In a predictions
       /\ matchesPartially (toLowerCase input) (placeSuggestion a) = true
       /\ q = assignExactMatch (toLowerCase input) (placeSuggestion a))
  /\ List.length (transform input predictions) <= List.length predictions.
Proof.
  split; [apply transform_In |].
  unfold transform. rewrite uniqueResults_uniqueFrom.
  etransitivity; [apply uniqueFrom_length |].
  unfold filteredResults.
  rewrite <- (Permutation_length (sort_perm comparePriority _)).
  unfold annotatedResults, keptResults, placeSuggestions.
  rewrite length_map.
  etransitivity; [apply filter_length_le |].
  rewrite length_map. reflexivity.
Qed.

Lemma transform_from_predictions_witness :
  exists a, In a [["Sydney"; "NSW"; "Australia"]; ["Paris"; "France"]]
    /\ matchesPartially (toLowerCase "nsw") (placeSuggestion a) = true
    /\ mkPlace (JStr "Sydney") "NSW, Australia" "Sydney" "NSW" "Australia"
         (Some State)
       = assignExactMatch (toLowerCase "nsw") (placeSuggestion a).
Proof.
  apply (proj1 (transform_from_predictions "nsw"
                  [["Sydney"; "NSW"; "Australia"]; ["Paris"; "France"]])).
  simpl. left. reflexivity.
Defined.

(** X4: with an input that is not empty, a prediction without terms never
    reaches the output, and every suggestion of the output has a string as
    its [name]. *)
Theorem transform_names_defined (input : string)
    (predictions : list (list string)) :
  input <> "" ->
  forall q, In q (transform input predictions) ->
    exists n, name q = JStr n.
Proof.
  intros Hin q H. apply transform_In in H as (a & _ & Hm & ->).
  destruct (assignExactMatch_fields (toLowerCase input) (placeSuggestion a))
    as (-> & _).
  destruct a as [| n rest]; [| exists n; reflexivity].
  exfalso. apply Hin, toLowerCase_empty.
  change (placeSuggestion []) with (mkPlace JUndefined "" "" "" "" None) in Hm.
  unfold matchesPartially in Hm.
  cbn [city state country toLowerCase] in Hm.
  destruct (includes "" (toLowerCase input)) eqn:E; [| discriminate Hm].
  apply includes_in_empty, E.
Qed.

Lemma transform_names_defined_witness :
  exists n,
    name (mkPlace (JStr "NSW") "" "NSW" "NSW" "NSW" (Some Country)) = JStr n.
Proof.
  apply (transform_names_defined "nsw" [[]; ["NSW"]]); [discriminate |].
  vm_compute. left. reflexivity.
Defined.

(** X5: a suggestion with a field among [country], [state], [city] equal
    to the input up to case passes the filter: what the annotation step
    tests is never dropped by the filter step. *)
Theorem exact_match_is_kept (input : string) (ps : list PlaceSuggestion)
    (p : PlaceSuggestion) :
  In p ps ->
  toLowerCase (country p) = toLowerCase input
  \/ toLowerCase (state p) = toLowerCase input
  \/ toLowerCase (city p) = toLowerCase input ->
  In p (keptResults input ps).
Proof.
  intros Hp H. unfold keptResults. apply filter_In. split; [exact Hp |].
  unfold matchesPartially. rewrite !orb_true_iff.
  destruct H as [H | [H | H]]; rewrite H; auto using includes_itself.
Qed.

Lemma exact_match_is_kept_witness :
  In (placeSuggestion ["Sydney"; "NSW"; "Australia"])
     (keptResults "AUSTRALIA"
        [placeSuggestion ["Sydney"; "NSW"; "Australia"]]).
Proof.
  apply exact_match_is_kept; [left; reflexivity |].
  left. reflexivity.
Defined.

(** X6: in the output of the transform [exactMatch] tells which field
    equals the input up to case: it is [country] exactly when [country]
    does, [state] exactly when [state] does and [country] does not,
    [city] exactly when [city] does and the two others do not, and
    [null] exactly when none does. *)
Theorem exactMatch_in_output (input : string)
    (predictions : list (list string)) (q : PlaceSuggestion) :
  In q (transform input predictions) ->
  (exactMatch q = Some Country
   <-> toLowerCase (country q) = toLowerCase input)
  /\ (exactMatch q = Some State
      <-> toLowerCase (country q) <> toLowerCase input
          /\ toLowerCase (state q) = toLowerCase input)
  /\ (exactMatch q = Some City
      <-> toLowerCase (country q) <> toLowerCase input
          /\ toLowerCase (state q) <> toLowerCase input
          /\ toLowerCase (city q) = toLowerCase input)
  /\ (exactMatch q = None
      <-> toLowerCase (country q) <> toLowerCase input
          /\ toLowerCase (state q) <> toLowerCase input
          /\ toLowerCase (city q) <> toLowerCase input).
Proof.
  intros H. apply transform_In in H as (a & _ & _ & ->).
  unfold assignExactMatch.
  set (p := placeSuggestion a).
  assert (Hp : exactMatch p = None) by reflexivity.
  destruct (String.eqb_spec (toLowerCase (country p)) (toLowerCase input));
    destruct (String.eqb_spec (toLowerCase (state p)) (toLowerCase input));
    destruct (String.eqb_spec (toLowerCase (city p)) (toLowerCase input));
    cbn [setExactMatch exactMatch country state city];
    rewrite ?Hp; intuition congruence.
Qed.

Lemma exactMatch_in_output_witness :
  exactMatch (mkPlace (JStr "Sydney") "NSW, Australia" "Sydney" "NSW"
                "Australia" (Some State)) = Some State
  <-> toLowerCase "Australia" <> toLowerCase "nsw"
      /\ toLowerCase "NSW" = toLowerCase "nsw".
Proof.
  apply (proj1 (proj2 (exactMatch_in_output "nsw"
                         [["Sydney"; "NSW"; "Australia"]]
                         (mkPlace (JStr "Sydney") "NSW, Australia" "Sydney"
                            "NSW" "Australia" (Some State))
                         (or_introl eq_refl)))).
Defined.

Section Order.

Lemma uniqueFrom_sorted (R : PlaceSuggestion -> PlaceSuggestion -> Prop)
    (met : gset string) (l : list PlaceSuggestion) :
  StronglySorted R l -> StronglySorted R (uniqueFrom met l).
Proof.
  intros Hs. revert met.
  induction Hs as [| p l Hs IH Hp]; intros met; simpl; [constructor |].
  destruct (decide (placeKey p ∈ met)); [apply IH |].
  constructor; [apply IH |].
  rewrite List.Forall_forall in *. intros q Hq.
  apply Hp. apply uniqueFrom_In in Hq. tauto.
Qed.

Lemma class_above_empty (k : Z) (x : PlaceSuggestion)
    (l : list PlaceSuggestion) :
  List.Forall (fun b => (weight x >= weight b)%Z) l ->
  (weight x < k)%Z ->
  List.filter (fun p => (weight p =? k)%Z) l = [].
Proof.
  intros Hl Hk. induction Hl as [| y l Hy Hl IH]; [reflexivity |].
  cbn [List.filter]. rewrite IH.
  destruct (Z.eqb_spec (weight y) k); [lia | reflexivity].
Qed.

Lemma weight_range (p : PlaceSuggestion) :
  weight p = 3%Z \/ weight p = 2%Z \/ weight p = 1%Z \/ weight p = 0%Z.
Proof.
  unfold weight. destruct (exactMatch p) as [[] |]; simpl; auto.
Qed.

Lemma sorted_by_classes (l : list PlaceSuggestion) :
  StronglySorted (fun a b => (weight a >= weight b)%Z) l ->
  l = withMatch (Some City) l ++ withMatch (Some State) l
      ++ withMatch (Some Country) l ++ withMatch None l.
Proof.
  unfold withMatch. cbn [priorityOrder].
  induction 1 as [| x l Hs IH Hx]; [reflexivity |].
  cbn [List.filter].
  destruct (weight_range x) as [Hw | [Hw | [Hw | Hw]]]; rewrite Hw;
    cbn [Z.eqb Pos.eqb app].
  - rewrite <- IH. reflexivity.
  - rewrite (class_above_empty 3 x l Hx) in * by lia.
    cbn [app] in *. rewrite <- IH. reflexivity.
  - rewrite (class_above_empty 3 x l Hx) in * by lia.
    rewrite (class_above_empty 2 x l Hx) in * by lia.
    cbn [app] in *. rewrite <- IH. reflexivity.
  - rewrite (class_above_empty 3 x l Hx) in * by lia.
    rewrite (class_above_empty 2 x l Hx) in * by lia.
    rewrite (class_above_empty 1 x l Hx) in * by lia.
    cbn [app] in *. rewrite <- IH. reflexivity.
Qed.

Lemma uniqueFrom_fixed (met : gset string) (l : list PlaceSuggestion) :
  List.NoDup (map placeKey l) ->
  (forall p, In p l -> placeKey p ∉ met) ->
  uniqueFrom met l = l.
Proof.
  revert met. induction l as [| p l IH]; intros met Hnd Hmet;
    [reflexivity |].
  cbn [uniqueFrom map] in *. apply List.NoDup_cons_iff in Hnd as [Hp Hnd].
  destruct (decide (placeKey p ∈ met)) as [Hin | _].
  - exfalso. apply (Hmet p); [left; reflexivity | exact Hin].
  - f_equal. apply IH; [exact Hnd |].
    intros q Hq Hk. apply elem_of_union in Hk as [Hk | Hk].
    + apply elem_of_singleton in Hk. apply Hp. rewrite <- Hk.
      apply in_map, Hq.
    + apply (Hmet q); [right; exact Hq | exact Hk].
Qed.

Lemma uniqueFrom_sublist (met : gset string) (l : list PlaceSuggestion) :
  sublist (uniqueFrom met l) l.
Proof.
  revert met. induction l as [| p l IH]; intros met; simpl; [constructor |].
  destruct (decide (placeKey p ∈ met)).
  - apply sublist_cons, IH.
  - apply sublist_skip, IH.
Qed.

Lemma lower_unit_idempotent (c : ascii) :
  lower_unit (lower_unit c) = lower_unit c.
Proof. destruct c as [[] [] [] [] [] [] [] []]; reflexivity. Qed.

Lemma toLowerCase_idempotent (s : string) :
  toLowerCase (toLowerCase s) = toLowerCase s.
Proof.
  induction s as [| c s IH]; [reflexivity |].
  cbn [toLowerCase]. rewrite lower_unit_idempotent, IH. reflexivity.
Qed.

End Order.

(** X7: the output of the transform is in descending order of the rank
    city 3, state 2, country 1, unset 0: a suggestion never comes before
    one of higher rank, since the removal of duplicates keeps the order
    that the sort gave. *)
Theorem transform_sorted (input : string) (predictions : list (list string)) :
  StronglySorted (fun a b => (rankOf a >= rankOf b)%Z)
    (transform input predictions).
Proof.
  unfold transform. rewrite uniqueResults_uniqueFrom.
  apply uniqueFrom_sorted. unfold filteredResults.
  apply (sort_sorted rankOf comparePriority comparePriority_rankOf).
Qed.

(** X8: the sort puts the suggestions annotated [city] first, then those
    annotated [state], then those annotated [country], then the others,
    each group in its input order. *)
Theorem sort_by_classes (l : list PlaceSuggestion) :
  sort comparePriority l
  = withMatch (Some City) l ++ withMatch (Some State) l
    ++ withMatch (Some Country) l ++ withMatch None l.
Proof.
  rewrite (sorted_by_classes (sort comparePriority l))
    by apply (sort_sorted weight comparePriority comparePriority_weight).
  unfold withMatch.
  rewrite !(sort_class weight comparePriority comparePriority_weight).
  reflexivity.
Qed.

(** X9: a list whose keys are pairwise different goes through the removal
    of duplicates unchanged, and removing duplicates a second time changes
    nothing. *)
Theorem uniqueResults_idempotent (l : list PlaceSuggestion) :
  (List.NoDup (map placeKey l) -> uniqueResults l = l)
  /\ uniqueResults (uniqueResults l) = uniqueResults l.
Proof.
  assert (H : forall l', List.NoDup (map placeKey l') -> uniqueResults l' = l').
  { intros l' Hnd. rewrite uniqueResults_uniqueFrom.
    apply uniqueFrom_fixed; [exact Hnd |].
    intros p _. apply not_elem_of_empty. }
  split; [apply H |].
  apply H. rewrite uniqueResults_uniqueFrom. apply uniqueFrom_NoDup.
Qed.

Lemma uniqueResults_idempotent_witness :
  uniqueResults [placeSuggestion ["Sydney"; "NSW"; "Australia"];
                 placeSuggestion ["Perth"; "WA"; "Australia"]]
  = [placeSuggestion ["Sydney"; "NSW"; "Australia"];
     placeSuggestion ["Perth"; "WA"; "Australia"]].
Proof.
  apply (proj1 (uniqueResults_idempotent
                  [placeSuggestion ["Sydney"; "NSW"; "Australia"];
                   placeSuggestion ["Perth"; "WA"; "Australia"]])).
  vm_compute. repeat constructor; simpl; intuition discriminate.
Defined.

(** X10: the transform looks at the input through [toLowerCase] only: two
    inputs that are equal up to case give the same output, and so do an
    input and its lowercased form. *)
Theorem transform_input_case (input input' : string)
    (predictions : list (list string)) :
  (toLowerCase input = toLowerCase input' ->
   transform input predictions = transform input' predictions)
  /\ transform (toLowerCase input) predictions = transform input predictions.
Proof.
  assert (H : forall i i', toLowerCase i = toLowerCase i' ->
                transform i predictions = transform i' predictions).
  { intros i i' Hl.
    unfold transform, filteredResults, annotatedResults, keptResults.
    rewrite Hl. reflexivity. }
  split; [apply H |]. apply H, toLowerCase_idempotent.
Qed.

Lemma transform_input_case_witness :
  transform "NSW" [["Sydney"; "NSW"; "Australia"]]
  = transform "nsw" [["Sydney"; "NSW"; "Australia"]].
Proof.
  apply (proj1 (transform_input_case "NSW" "nsw"
                  [["Sydney"; "NSW"; "Australia"]])).
  reflexivity.
Defined.

(** X11: the removal of duplicates only deletes: what it keeps is in the
    order of its input, and the first suggestion of the input is always
    kept. *)
Theorem uniqueResults_keeps_order (l : list PlaceSuggestion) :
  sublist (uniqueResults l) l
  /\ hd_error (uniqueResults l) = hd_error l.
Proof.
  rewrite uniqueResults_uniqueFrom. split; [apply uniqueFrom_sublist |].
  destruct l as [| p l]; [reflexivity |]. cbn [uniqueFrom].
  destruct (decide (placeKey p ∈ (∅ : gset string))) as [H | _];
    [| reflexivity].
  exfalso. exact (not_elem_of_empty _ H).
Qed.

(** * The handler of [/autocomplete] *)

Section Trim.

Lemma trimEnd_keeps_head (c : ascii) (r : string) :
  is_white c = false -> trimEnd (String c r) <> "".
Proof.
  intros Hc. cbn [trimEnd]. rewrite Hc.
  destruct (trimEnd r); discriminate.
Qed.

Lemma trim_empty_iff (s : string) : trim s = "" <-> onlyWhite s = true.
Proof.
  unfold trim. induction s as [| c s IH]; [split; reflexivity |].
  cbn [trimStart onlyWhite]. destruct (is_white c) eqn:Hc.
  - exact IH.
  - split; [| discriminate].
    intros H. exfalso. exact (trimEnd_keeps_head c s Hc H).
Qed.

Lemma onlyWhite_empty (s : string) : s = "" -> onlyWhite s = true.
Proof. intros ->. reflexivity. Qed.

End Trim.

Lemma checked_transform_result (input : string)
    (predictions : list (list string)) :
  Checked.transform input predictions
  = Checked.ret
      (map toObj
         (uniqueResults
            (filteredResults input (placeSuggestions predictions)))).
Proof.
  unfold Checked.transform.
  replace (map Checked.placeSuggestion predictions)
    with (map toObj (placeSuggestions predictions))
    by (unfold placeSuggestions; rewrite map_map; apply map_ext;
        intros a; symmetry; apply placeSuggestion_toObj).
  rewrite filteredResults_toObj. cbn [Checked.bind Checked.ret].
  rewrite uniqueResults_toObj. reflexivity.
Qed.

Lemma autocomplete_not_blank (input : string)
    (axios_get : string -> AxiosResult) :
  onlyWhite input = false ->
  autocomplete (Some input) axios_get
  = match axios_get input with
    | Rejected =>
        ({| statusCode := 500; body := ErrorBody "Internal server error" |},
         [AxiosGet input])
    | Resolved status data =>
        if String.eqb status "OK" then
          ({| statusCode := 200;
              body := Results (map toObj (transform input (termValues data)))
           |},
           [AxiosGet input; Transform input (termValues data)])
        else
          ({| statusCode := 500;
              body := ErrorDetails "Failed to fetch autocomplete suggestions"
                        status data |},
           [AxiosGet input])
    end.
Proof.
  intros Hw. unfold autocomplete.
  destruct (String.eqb_spec input "") as [He | _].
  { rewrite (onlyWhite_empty _ He) in Hw. discriminate. }
  destruct (String.eqb_spec (trim input) "") as [Ht | _].
  { apply trim_empty_iff in Ht. congruence. }
  cbn [orb]. destruct (axios_get input) as [| status data]; [reflexivity |].
  destruct (String.eqb status "OK"); cbn [negb]; [| reflexivity].
  fold (termValues data). rewrite checked_transform_result. reflexivity.
Qed.

(** X12: when the input is not blank and the remote call answers with the
    status [OK], the handler answers 200 with the output of the transform
    on the input as given (neither trimmed nor lowercased) and on the term
    values of the predictions; the remote call and the transform happen
    once each, in that order. *)
Theorem autocomplete_success (input : string)
    (axios_get : string -> AxiosResult) (data : list Prediction) :
  onlyWhite input = false ->
  axios_get input = Resolved "OK" data ->
  autocomplete (Some input) axios_get
  = ({| statusCode := 200;
        body := Results (map toObj (transform input (termValues data))) |},
     [AxiosGet input; Transform input (termValues data)]).
Proof.
  intros Hw Hax. rewrite (autocomplete_not_blank _ _ Hw), Hax. reflexivity.
Qed.

Lemma autocomplete_success_witness :
  autocomplete (Some "nsw")
    (fun _ => Resolved "OK"
                [mkPrediction [mkTerm 0 "Sydney"; mkTerm 8 "NSW";
                               mkTerm 13 "Australia"]])
  = ({| statusCode := 200;
        body := Results
                  (map toObj
                     (transform "nsw"
                        (termValues
                           [mkPrediction [mkTerm 0 "Sydney"; mkTerm 8 "NSW";
                                          mkTerm 13 "Australia"]]))) |},
     [AxiosGet "nsw";
      Transform "nsw"
        (termValues
           [mkPrediction [mkTerm 0 "Sydney"; mkTerm 8 "NSW";
                          mkTerm 13 "Australia"]])]).
Proof. apply autocomplete_success; reflexivity. Defined.

(** X13: the handler answers 400 exactly when the parameter is missing or
    made of white space only (the empty string included). *)
Theorem autocomplete_400_iff (query_input : option string)
    (axios_get : string -> AxiosResult) :
  statusCode (fst (autocomplete query_input axios_get)) = 400
  <-> query_input = None
      \/ exists input, query_input = Some input /\ onlyWhite input = true.
Proof.
  destruct query_input as [input |]; [| split; auto].
  destruct (onlyWhite input) eqn:Hw.
  - split; [eauto |]. intros _. unfold autocomplete.
    apply trim_empty_iff in Hw. rewrite Hw. cbn [String.eqb].
    rewrite orb_true_r. reflexivity.
  - rewrite (autocomplete_not_blank _ _ Hw). split.
    + destruct (axios_get input) as [| status data];
        [| destruct (String.eqb status "OK")]; discriminate.
    + intros [H | (i & H & Hi)]; [discriminate |].
      injection H as <-. congruence.
Qed.

(** X14: for an input that is not blank, the handler answers 500 exactly
    when the remote call is rejected or gives a status other than [OK];
    the transform is then not run, and an answer with another status is
    handed back to the caller as the details of the error. *)
Theorem autocomplete_upstream_failure (input : string)
    (axios_get : string -> AxiosResult) :
  onlyWhite input = false ->
  (statusCode (fst (autocomplete (Some input) axios_get)) = 500
   <-> upstreamFailed (axios_get input))
  /\ (upstreamFailed (axios_get input) ->
      snd (autocomplete (Some input) axios_get) = [AxiosGet input])
  /\ (forall status data,
        axios_get input = Resolved status data -> status <> "OK" ->
        body (fst (autocomplete (Some input) axios_get))
        = ErrorDetails "Failed to fetch autocomplete suggestions" status data).
Proof.
  intros Hw. rewrite (autocomplete_not_blank _ _ Hw).
  destruct (axios_get input) as [| status data]; cbn [upstreamFailed].
  - repeat split; intros; congruence || discriminate.
  - destruct (String.eqb_spec status "OK") as [-> | Hne]; cbn [fst snd].
    + repeat split; intros; try congruence; try discriminate.
    + repeat split; intros; try congruence.
      injection H as <- <-. reflexivity.
Qed.

Lemma autocomplete_upstream_failure_witness :
  statusCode
    (fst (autocomplete (Some "nsw") (fun _ => Resolved "REQUEST_DENIED" [])))
  = 500.
Proof.
  apply (proj1 (autocomplete_upstream_failure "nsw"
                  (fun _ => Resolved "REQUEST_DENIED" []) eq_refl)).
  discriminate.
Defined.

(** * The handlers of [/find-place] and [/place-details] *)

Section Lookup.

Context {J : Type}.
Variable queryParam : jsval.
Variable find_place : string -> FindPlaceResult.
Variable place_details : string -> string -> DetailsResult J.

Lemma or_else_not_empty (v : jsval) (d : string) :
  d <> "" -> or_else v d <> "".
Proof using Type.
  intros Hd. destruct v as [| s0]; [exact Hd |].
  cbn [or_else]. destruct (String.eqb_spec s0 ""); assumption.
Qed.

Lemma findPlace_cases :
  findPlace queryParam find_place place_details
  = match find_place (lookupText queryParam) with
    | FindRejected =>
        ({| placeStatus := 500;
            placeBody := PlaceError "Failed to fetch place information" |},
         [FindPlaceCall (lookupText queryParam)])
    | FindResolved _ _ as r =>
        match firstCandidate r with
        | None =>
            ({| placeStatus := 404;
                placeBody := PlaceError "Place not found" |},
             [FindPlaceCall (lookupText queryParam)])
        | Some c =>
            (match place_details (place_id c) findPlaceFields with
             | DetailsRejected =>
                 {| placeStatus := 500;
                    placeBody :=
                      PlaceError "Failed to fetch place information" |}
             | DetailsResolved data =>
                 if String.eqb (detailsStatus data) "OK" then
                   {| placeStatus := 200; placeBody := PlaceData data |}
                 else
                   {| placeStatus := 500;
                      placeBody := PlaceError "Failed to fetch place details"
                   |}
             end,
             [FindPlaceCall (lookupText queryParam);
              DetailsCall (place_id c) findPlaceFields])
        end
    end.
Proof using Type.
  unfold findPlace, lookupText, firstCandidate.
  destruct (find_place _) as [| status [[| c cs] |]]; try reflexivity;
    destruct (String.eqb status "OK"); cbn [negb]; try reflexivity.
  change (join "," ["name"; "formatted_address"; "geometry";
                    "address_components"]) with findPlaceFields.
  destruct (place_details _ _) as [| data]; [reflexivity |].
  destruct (String.eqb (detailsStatus data) "OK"); reflexivity.
Qed.

Lemma placeDetails_cases :
  placeDetails queryParam find_place place_details
  = match find_place (lookupText queryParam) with
    | FindRejected =>
        ({| placeStatus := 500;
            placeBody := PlaceError "Internal server error" |},
         [FindPlaceCall (lookupText queryParam)])
    | FindResolved _ _ as r =>
        match firstCandidate r with
        | None =>
            ({| placeStatus := 404;
                placeBody := PlaceError "Place not found" |},
             [FindPlaceCall (lookupText queryParam)])
        | Some c =>
            (match place_details (place_id c) placeDetailsFields with
             | DetailsRejected =>
                 {| placeStatus := 500;
                    placeBody := PlaceError "Internal server error" |}
             | DetailsResolved data =>
                 if String.eqb (detailsStatus data) "OK" then
                   {| placeStatus := 200;
                      placeBody := PlaceResult (result data) |}
                 else
                   {| placeStatus := 500;
                      placeBody := PlaceError "Failed to fetch place details"
                   |}
             end,
             [FindPlaceCall (lookupText queryParam);
              DetailsCall (place_id c) placeDetailsFields])
        end
    end.
Proof using Type.
  unfold placeDetails, lookupText, firstCandidate.
  destruct (find_place _) as [| status [[| c cs] |]]; try reflexivity;
    destruct (String.eqb status "OK"); cbn [negb]; try reflexivity.
  change (join "," ["name"; "formatted_address"; "geometry";
                    "address_components"; "international_phone_number";
                    "opening_hours"; "website"; "reviews"; "types"])
    with placeDetailsFields.
  destruct (place_details _ _) as [| data]; [reflexivity |].
  destruct (String.eqb (detailsStatus data) "OK"); reflexivity.
Qed.

End Lookup.

(** X15: each of the two handlers answers 404 exactly when the Find Place
    call is answered with a status other than [OK], without candidates or
    with an empty list of candidates; no Place Details call is then
    made. *)
Theorem lookup_not_found {J : Type} (queryParam : jsval)
    (find_place : string -> FindPlaceResult)
    (place_details : string -> string -> DetailsResult J) :
  (placeStatus (fst (findPlace queryParam find_place place_details)) = 404
   <-> noPlace (find_place (lookupText queryParam)))
  /\ (placeStatus (fst (placeDetails queryParam find_place place_details))
      = 404
      <-> noPlace (find_place (lookupText queryParam)))
  /\ (noPlace (find_place (lookupText queryParam)) ->
      snd (findPlace queryParam find_place place_details)
      = [FindPlaceCall (lookupText queryParam)]
      /\ snd (placeDetails queryParam find_place place_details)
         = [FindPlaceCall (lookupText queryParam)]).
Proof.
  rewrite findPlace_cases, placeDetails_cases.
  destruct (find_place (lookupText queryParam)) as [| status cands];
    cbn [noPlace].
  - repeat split; intros; discriminate || contradiction.
  - destruct (firstCandidate (FindResolved status cands)) as [c |].
    + cbn [fst snd].
      destruct (place_details (place_id c) findPlaceFields) as [| d1];
        [| destruct (String.eqb (detailsStatus d1) "OK")];
        (destruct (place_details (place_id c) placeDetailsFields) as [| d2];
         [| destruct (String.eqb (detailsStatus d2) "OK")]);
        repeat split; intros; discriminate.
    + repeat split; reflexivity.
Qed.

Lemma lookup_not_found_witness :
  snd (findPlace (JStr "Atlantis")
         (fun _ => FindResolved "ZERO_RESULTS" (Some []))
         (fun _ _ => @DetailsRejected nat))
  = [FindPlaceCall "Atlantis"]
  /\ snd (placeDetails (JStr "Atlantis")
            (fun _ => FindResolved "ZERO_RESULTS" (Some []))
            (fun _ _ => @DetailsRejected nat))
     = [FindPlaceCall "Atlantis"].
Proof.
  apply (proj2 (proj2 (lookup_not_found (JStr "Atlantis")
                         (fun _ => FindResolved "ZERO_RESULTS" (Some []))
                         (fun _ _ => @DetailsRejected nat)))).
  reflexivity.
Defined.

(** X16: each of the two handlers always makes the Find Place call, first,
    with a text that is never empty: the [query] parameter, or the default
    text when the parameter is missing or empty. The Place Details call
    follows exactly when the answer names a place, for the [place_id] of
    the first candidate and with the handler's own list of fields. *)
Theorem lookup_calls {J : Type} (queryParam : jsval)
    (find_place : string -> FindPlaceResult)
    (place_details : string -> string -> DetailsResult J) :
  lookupText queryParam <> ""
  /\ lookupText queryParam
     = match queryParam with
       | JStr (String c s) => String c s
       | _ => "Museum of Contemporary Art Australia"
       end
  /\ snd (findPlace queryParam find_place place_details)
     = FindPlaceCall (lookupText queryParam)
       :: match firstCandidate (find_place (lookupText queryParam)) with
          | Some c => [DetailsCall (place_id c) findPlaceFields]
          | None => []
          end
  /\ snd (placeDetails queryParam find_place place_details)
     = FindPlaceCall (lookupText queryParam)
       :: match firstCandidate (find_place (lookupText queryParam)) with
          | Some c => [DetailsCall (place_id c) placeDetailsFields]
          | None => []
          end.
Proof.
  split; [apply or_else_not_empty; discriminate |].
  split; [destruct queryParam as [| [| c s]]; reflexivity |].
  rewrite findPlace_cases, placeDetails_cases.
  destruct (find_place (lookupText queryParam)) as [| status cands];
    [split; reflexivity |].
  destruct (firstCandidate (FindResolved status cands)); split; reflexivity.
Qed.

(** X17: the two handlers differ only in the fields they ask for, in the
    part of the answer they hand back and in the message of a rejected
    call: when the answers of the Place Details call do not depend on the
    fields, both give the same status, and where [/find-place] hands back
    the payload, [/place-details] hands back its [result]. *)
Theorem placeDetails_agrees_findPlace {J : Type} (queryParam : jsval)
    (find_place : string -> FindPlaceResult)
    (place_details : string -> string -> DetailsResult J) :
  (forall id fields fields',
     place_details id fields = place_details id fields') ->
  placeStatus (fst (placeDetails queryParam find_place place_details))
  = placeStatus (fst (findPlace queryParam find_place place_details))
  /\ (forall data,
        placeBody (fst (findPlace queryParam find_place place_details))
        = PlaceData data ->
        placeBody (fst (placeDetails queryParam find_place place_details))
        = PlaceResult (result data)).
Proof.
  intros Hind. rewrite findPlace_cases, placeDetails_cases.
  destruct (find_place (lookupText queryParam)) as [| status cands];
    [split; [reflexivity | discriminate] |].
  destruct (firstCandidate (FindResolved status cands)) as [c |];
    [| split; [reflexivity | discriminate]].
  cbn [fst]. rewrite (Hind (place_id c) placeDetailsFields findPlaceFields).
  destruct (place_details (place_id c) findPlaceFields) as [| d];
    [split; [reflexivity | discriminate] |].
  destruct (String.eqb (detailsStatus d) "OK");
    (split; [reflexivity |]); cbn [placeBody]; [| discriminate].
  intros data H. injection H as <-. reflexivity.
Qed.

Lemma placeDetails_agrees_findPlace_witness :
  placeStatus
    (fst (placeDetails JUndefined
            (fun _ => FindResolved "OK" (Some [mkCandidate "ChIJ1"]))
            (fun _ _ => DetailsResolved (mkDetails "OK" 7))))
  = placeStatus
      (fst (findPlace JUndefined
              (fun _ => FindResolved "OK" (Some [mkCandidate "ChIJ1"]))
              (fun _ _ => DetailsResolved (mkDetails "OK" 7)))).
Proof.
  apply (placeDetails_agrees_findPlace JUndefined
           (fun _ => FindResolved "OK" (Some [mkCandidate "ChIJ1"]))
           (fun _ _ => DetailsResolved (mkDetails "OK" 7))).
  reflexivity.
Defined.

(** X18: each of the two handlers answers 200 exactly when the Find Place
    answer names a place and the Place Details call for its first
    candidate is answered with the status [OK]; [/find-place] then hands
    back the payload of that answer and [/place-details] its [result]. *)
Theorem lookup_ok {J : Type} (queryParam : jsval)
    (find_place : string -> FindPlaceResult)
    (place_details : string -> string -> DetailsResult J) :
  (forall data,
     fst (findPlace queryParam find_place place_details)
     = {| placeStatus := 200; placeBody := PlaceData data |}
     <-> exists c,
           firstCandidate (find_place (lookupText queryParam)) = Some c
           /\ detailsOk (place_details (place_id c) findPlaceFields)
              = Some data)
  /\ (forall r,
        fst (placeDetails queryParam find_place place_details)
        = {| placeStatus := 200; placeBody := PlaceResult r |}
        <-> exists c data,
              firstCandidate (find_place (lookupText queryParam)) = Some c
              /\ detailsOk (place_details (place_id c) placeDetailsFields)
                 = Some data
              /\ r = result data)
  /\ (placeStatus (fst (findPlace queryParam find_place place_details)) = 200
      <-> exists data,
            placeBody (fst (findPlace queryParam find_place place_details))
            = PlaceData data)
  /\ (placeStatus (fst (placeDetails queryParam find_place place_details))
      = 200
      <-> exists r,
            placeBody (fst (placeDetails queryParam find_place place_details))
            = PlaceResult r).
Proof.
  rewrite findPlace_cases, placeDetails_cases.
  destruct (find_place (lookupText queryParam)) as [| status cands].
  { cbn [firstCandidate fst placeStatus placeBody].
    repeat split; intros; try discriminate;
      repeat match goal with
             | H : exists _, _ |- _ => destruct H
             | H : _ /\ _ |- _ => destruct H
             end; discriminate. }
  destruct (firstCandidate (FindResolved status cands)) as [c |].
  2: { cbn [fst placeStatus placeBody].
       repeat split; intros; try discriminate;
         repeat match goal with
                | H : exists _, _ |- _ => destruct H
                | H : _ /\ _ |- _ => destruct H
                end; discriminate. }
  cbn [fst]. unfold detailsOk. split; [| split; [| split]].
  - intros data. split.
    + intros H. exists c. split; [reflexivity |].
      destruct (place_details (place_id c) findPlaceFields) as [| d];
        [discriminate |].
      destruct (String.eqb (detailsStatus d) "OK"); [| discriminate].
      injection H as ->. reflexivity.
    + intros (c0 & Hc & Hd). injection Hc as <-.
      destruct (place_details (place_id c) findPlaceFields) as [| d];
        [discriminate |].
      destruct (String.eqb (detailsStatus d) "OK"); [| discriminate].
      injection Hd as ->. reflexivity.
  - intros r. split.
    + intros H. exists c.
      destruct (place_details (place_id c) placeDetailsFields) as [| d];
        [discriminate |].
      destruct (String.eqb (detailsStatus d) "OK"); [| discriminate].
      injection H as <-. exists d. auto.
    + intros (c0 & data & Hc & Hd & ->). injection Hc as <-.
      destruct (place_details (place_id c) placeDetailsFields) as [| d];
        [discriminate |].
      destruct (String.eqb (detailsStatus d) "OK"); [| discriminate].
      injection Hd as ->. reflexivity.
  - destruct (place_details (place_id c) findPlaceFields) as [| d];
      [| destruct (String.eqb (detailsStatus d) "OK")];
      cbn [placeStatus placeBody]; split; intros H;
      try discriminate; eauto; destruct H; discriminate.
  - destruct (place_details (place_id c) placeDetailsFields) as [| d];
      [| destruct (String.eqb (detailsStatus d) "OK")];
      cbn [placeStatus placeBody]; split; intros H;
      try discriminate; eauto; destruct H; discriminate.
Qed.

(** * Narrowing the input *)

Lemma append_associative (a b c : string) :
  ((a ++ b) ++ c)%string = (a ++ b ++ c)%string.
Proof.
  induction a as [| x a IH]; [reflexivity |].
  rewrite !append_cons, IH. reflexivity.
Qed.

Lemma substringOf_trans (a b c : string) :
  substringOf a b -> substringOf b c -> substringOf a c.
Proof.
  intros (p1 & q1 & ->) (p2 & q2 & ->).
  exists (p2 ++ p1)%string, (q1 ++ q2)%string.
  rewrite !append_associative. reflexivity.
Qed.

(** X19: a longer input keeps fewer suggestions: when the lowercased
    [shorter] input occurs in the lowercased [longer] one, every
    suggestion that the filter keeps for [longer] is kept for [shorter]
    too. *)
Theorem kept_narrows (shorter longer : string) (ps : list PlaceSuggestion)
    (p : PlaceSuggestion) :
  substringOf (toLowerCase shorter) (toLowerCase longer) ->
  In p (keptResults longer ps) -> In p (keptResults shorter ps).
Proof.
  intros Hsub. unfold keptResults. rewrite !filter_In.
  rewrite !matchesPartially_partialMatch. unfold partialMatch.
  intros [Hp H]. split; [exact Hp |].
  destruct H as [H | [H | H]]; eauto using substringOf_trans.
Qed.

Lemma kept_narrows_witness :
  In (placeSuggestion ["Sydney"; "NSW"; "Australia"])
     (keptResults "Syd" [placeSuggestion ["Sydney"; "NSW"; "Australia"]]).
Proof.
  apply (kept_narrows "Syd" "SYDNEY").
  - exists "", "ney". reflexivity.
  - simpl. left. reflexivity.
Defined.
